(** * mailcatcher: the message store, the intake session and the header scan

    A shallow embedding of [server.go] and of the port selection of
    [cmd/mailcatcher/main.go].  Go strings and byte slices are Rocq
    [string]s (sequences of 8-bit characters), Go [int]s are [Z], slices are
    lists, and every method that touches the shared [Server] takes the store
    and returns the new one.  The mutex of the store makes each method one
    atomic step, so a run of the program is a sequence of such steps.

    The functions of Go's standard library that the code calls
    ([bufio.Scanner], [strings.TrimSpace], [strconv.Atoi], [fmt.Sscanf],
    ...) are modelled in the modules named after their packages.  A method
    [(r *T) M] of the source is [T_M] here, and the fields of [Email] carry
    the name of the struct, since [Email] names both the struct and a
    method of [Server]. *)

From Stdlib Require Import ZArith NArith List String Ascii Bool Lia.
From Stdlib Require Import DecimalString DecimalZ.
Import ListNotations.

Local Open Scope string_scope.
Local Open Scope Z_scope.

(** ** Bytes *)

Definition byte_val (c : ascii) : Z := Z.of_N (N_of_ascii c).
Definition byte_of (n : Z) : ascii := ascii_of_N (Z.to_N n).

Definition LF : ascii := "010"%char.
Definition CR : ascii := "013"%char.
Definition CRLF : string := String CR (String LF EmptyString).

(** [len(s)] *)
Definition len (s : string) : Z := Z.of_nat (String.length s).

(** [s[n:]]; Go panics when [n > len(s)], which is [None] here. *)
Fixpoint slice_from (s : string) (n : nat) {struct n} : option string :=
  match n with
  | O => Some s
  | S n' =>
      match s with
      | EmptyString => None
      | String _ rest => slice_from rest n'
      end
  end.

Fixpoint rev_onto (s acc : string) : string :=
  match s with
  | EmptyString => acc
  | String c rest => rev_onto rest (String c acc)
  end.

Definition rev_string (s : string) : string := rev_onto s EmptyString.

Fixpoint repeat_byte (c : ascii) (n : nat) : string :=
  match n with
  | O => EmptyString
  | S n' => String c (repeat_byte c n')
  end.

(** ** Package [strings] *)

Module strings.

(** [strings.HasPrefix(s, prefix)] *)
Fixpoint HasPrefix (s prefix : string) {struct prefix} : bool :=
  match prefix with
  | EmptyString => true
  | String p prefix' =>
      match s with
      | EmptyString => false
      | String c s' => Ascii.eqb c p && HasPrefix s' prefix'
      end
  end.

Definition lower_byte (c : ascii) : ascii :=
  let n := byte_val c in
  if (65 <=? n) && (n <=? 90) then byte_of (n + 32) else c.

(** [strings.ToLower(s)] on the bytes below 0x80; a byte from 0x80 up is
    kept.  Go lowers such a string rune by rune, and no rune outside ASCII
    has a lower case among the letters of an ASCII header name (only
    U+0130 and U+212A map into ASCII, to [i] and [k]), while an invalid
    byte becomes U+FFFD; so a test of the lowered string against an ASCII
    prefix without [i] and [k] sees the same answer. *)
Fixpoint ToLower (s : string) : string :=
  match s with
  | EmptyString => EmptyString
  | String c rest => String (lower_byte c) (ToLower rest)
  end.

(** The table [asciiSpace]: tab, line feed, vertical tab, form feed,
    carriage return and space. *)
Definition asciiSpace (c : ascii) : bool :=
  let n := byte_val c in
  ((9 <=? n) && (n <=? 13)) || (n =? 32).

Definition byte_is (c : ascii) (n : Z) : bool := byte_val c =? n.

(** The UTF-8 encodings of the runes of [unicode.IsSpace] above ASCII:
    U+0085, U+00A0 (two bytes); U+1680, U+2000..U+200A, U+2028, U+2029,
    U+202F, U+205F, U+3000 (three bytes). *)
Definition space2 (b0 b1 : ascii) : bool :=
  byte_is b0 194 && (byte_is b1 133 || byte_is b1 160).

Definition space3 (b0 b1 b2 : ascii) : bool :=
  (byte_is b0 225 && byte_is b1 154 && byte_is b2 128)
  || (byte_is b0 226 && byte_is b1 128
      && (((128 <=? byte_val b2) && (byte_val b2 <=? 138))
          || byte_is b2 168 || byte_is b2 169 || byte_is b2 175))
  || (byte_is b0 226 && byte_is b1 129 && byte_is b2 159)
  || (byte_is b0 227 && byte_is b1 128 && byte_is b2 128).

(** [strings.TrimLeftFunc(s, unicode.IsSpace)]: runes are decoded from the
    front; an invalid byte decodes to U+FFFD, which is no space. *)
Fixpoint TrimLeftSpace (s : string) : string :=
  match s with
  | EmptyString => EmptyString
  | String b0 r0 =>
      if asciiSpace b0 then TrimLeftSpace r0
      else
        match r0 with
        | EmptyString => s
        | String b1 r1 =>
            if space2 b0 b1 then TrimLeftSpace r1
            else
              match r1 with
              | EmptyString => s
              | String b2 r2 =>
                  if space3 b0 b1 b2 then TrimLeftSpace r2 else s
              end
        end
  end.

(** The same scan over the reversed string, for
    [strings.TrimRightFunc(s, unicode.IsSpace)]: the last rune is found
    by walking back over continuation bytes to a start byte, so a space
    is recognised by the bytes of its encoding read backwards. *)
Fixpoint TrimLeftSpace_rev (s : string) : string :=
  match s with
  | EmptyString => EmptyString
  | String b0 r0 =>
      if asciiSpace b0 then TrimLeftSpace_rev r0
      else
        match r0 with
        | EmptyString => s
        | String b1 r1 =>
            if space2 b1 b0 then TrimLeftSpace_rev r1
            else
              match r1 with
              | EmptyString => s
              | String b2 r2 =>
                  if space3 b2 b1 b0 then TrimLeftSpace_rev r2 else s
              end
        end
  end.

Definition TrimRightSpace (s : string) : string :=
  rev_string (TrimLeftSpace_rev (rev_string s)).

(** [strings.TrimSpace(s)] *)
Definition TrimSpace (s : string) : string :=
  TrimRightSpace (TrimLeftSpace s).

End strings.

(** ** Package [bufio]: a [Scanner] with the default split function
    [ScanLines] and the default buffer, over an in-memory reader *)

Module bufio.

(** [bufio.MaxScanTokenSize] *)
Definition MaxScanTokenSize : Z := 64 * 1024.

Record Scanner : Type := mkScanner {
  unread : string;      (* input not yet consumed *)
  token  : string;      (* last token returned by the split function *)
  tooLong : bool        (* [Err() == ErrTooLong] *)
}.

Definition NewScanner (input : string) : Scanner :=
  {| unread := input; token := EmptyString; tooLong := false |}.

(** [dropCR]: one trailing carriage return is removed. *)
Definition dropCR (data : string) : string :=
  match rev_string data with
  | String c r => if Ascii.eqb c CR then rev_string r else data
  | EmptyString => data
  end.

(** The bytes before the first line feed and the bytes after it. *)
Fixpoint cutLF (data : string) : option (string * string) :=
  match data with
  | EmptyString => None
  | String c rest =>
      if Ascii.eqb c LF then Some (EmptyString, rest)
      else
        match cutLF rest with
        | Some (line, after) => Some (String c line, after)
        | None => None
        end
  end.

(** [Scanner.Scan]: the next line, without its end-of-line marker.  The
    buffer grows up to [MaxScanTokenSize] bytes; a line that fills it
    without a line feed in sight stops the scan with [ErrTooLong].  A
    last line without line feed is a token when it is not empty. *)
Definition Scan (s : Scanner) : bool * Scanner :=
  if tooLong s then (false, s)
  else
    match unread s with
    | EmptyString => (false, s)
    | _ =>
        match cutLF (unread s) with
        | Some (line, after) =>
            if len line <? MaxScanTokenSize
            then (true, {| unread := after; token := dropCR line; tooLong := false |})
            else (false, {| unread := unread s; token := EmptyString; tooLong := true |})
        | None =>
            if len (unread s) <? MaxScanTokenSize
            then (true, {| unread := EmptyString; token := dropCR (unread s); tooLong := false |})
            else (false, {| unread := unread s; token := EmptyString; tooLong := true |})
        end
    end.

(** [Scanner.Text] *)
Definition Text (s : Scanner) : string := token s.

End bufio.

(** ** [parseSubject] *)

Definition is_empty (s : string) : bool :=
  match s with EmptyString => true | _ => false end.

(** The loop [for scanner.Scan() { ... }]; every turn consumes at least one
    byte of the input, so [fuel] above the length of the input is never
    used up.  The slice [line[8:]] cannot panic after the test of the
    prefix, so its [None] is never met. *)
Fixpoint parseSubject_loop (fuel : nat) (scanner : bufio.Scanner) : string :=
  match fuel with
  | O => EmptyString
  | S fuel' =>
      let (more, scanner') := bufio.Scan scanner in
      if more then
        let line := bufio.Text scanner' in
        if is_empty line then EmptyString
        else if strings.HasPrefix (strings.ToLower line) "subject:" then
          match slice_from line 8 with
          | Some rest => strings.TrimSpace rest
          | None => EmptyString
          end
        else parseSubject_loop fuel' scanner'
      else EmptyString
  end.

Definition parseSubject (body : string) : string :=
  parseSubject_loop (S (String.length body)) (bufio.NewScanner body).

(** ** Packages [strconv] and [fmt]: decimal integers *)

Module strconv.

Definition isDigit (c : ascii) : bool :=
  (48 <=? byte_val c) && (byte_val c <=? 57).

Definition isSign (c : ascii) : bool :=
  Ascii.eqb c "+"%char || Ascii.eqb c "-"%char.

(** The value of a run of decimal digits; [None] at any other byte. *)
Fixpoint digits_value (acc : Z) (s : string) : option Z :=
  match s with
  | EmptyString => Some acc
  | String c rest =>
      if isDigit c then digits_value (acc * 10 + (byte_val c - 48)) rest
      else None
  end.

(** [strconv.ParseInt(s, 10, 64)]: an optional sign and at least one
    digit, nothing else; [None] stands for a syntax or range error. *)
Definition ParseInt (s : string) : option Z :=
  match s with
  | EmptyString => None
  | String c rest =>
      let digits := if isSign c then rest else s in
      if is_empty digits then None
      else
        match digits_value 0 digits with
        | None => None
        | Some un =>
            if Ascii.eqb c "-"%char
            then (if un <=? 2 ^ 63 then Some (- un) else None)
            else (if un <? 2 ^ 63 then Some un else None)
        end
  end.

(** [strconv.Atoi(s)], with Go's [int] of 64 bits. *)
Definition Atoi (s : string) : option Z := ParseInt s.

(** [strconv.Itoa(n)], the text that the verb [%d] prints. *)
Definition Itoa (n : Z) : string := NilEmpty.string_of_int (Z.to_int n).

End strconv.

Module fmt.

(** [ss.SkipSpace] as [Sscanf] runs it: white space is skipped, a line
    feed is an error. *)
Fixpoint SkipSpace (s : string) : option string :=
  match s with
  | EmptyString => Some s
  | String b0 r0 =>
      if Ascii.eqb b0 LF then None
      else if strings.asciiSpace b0 then SkipSpace r0
      else
        match r0 with
        | EmptyString => Some s
        | String b1 r1 =>
            if strings.space2 b0 b1 then SkipSpace r1
            else
              match r1 with
              | EmptyString => Some s
              | String b2 r2 =>
                  if strings.space3 b0 b1 b2 then SkipSpace r2 else Some s
              end
        end
  end.

(** [ss.scanNumber]: the longest run of decimal digits at the front. *)
Fixpoint scanNumber (s : string) : string :=
  match s with
  | EmptyString => EmptyString
  | String c rest =>
      if strconv.isDigit c then String c (scanNumber rest) else EmptyString
  end.

(** [fmt.Sscanf(str, "%d", p)]: [Some v] when [v] is stored in [*p],
    [None] when an error is returned and [*p] is left as it was.  Leading
    white space is skipped, then an optional sign and the digits that
    follow are read; what comes after the digits is not looked at. *)
Definition Sscanf_d (str : string) : option Z :=
  match SkipSpace str with
  | None => None
  | Some EmptyString => None
  | Some (String c rest as s) =>
      let sign := if strconv.isSign c then String c EmptyString else EmptyString in
      let after := if strconv.isSign c then rest else s in
      let digits := scanNumber after in
      if is_empty digits then None else strconv.ParseInt (sign ++ digits)
  end.

(** [fmt.Sprintf("msg-%d", n)] *)
Definition Sprintf_msg (n : Z) : string := "msg-" ++ strconv.Itoa n.

End fmt.

(** ** Errors and readers *)

Inductive error : Type :=
| errorString (msg : string)
| wrapError (msg : string) (cause : error).

Definition error_Error (e : error) : string :=
  match e with
  | errorString msg => msg
  | wrapError msg _ => msg
  end.

(** [fmt.Errorf(prefix + "%w", err)] *)
Definition Errorf_w (prefix : string) (err : error) : error :=
  wrapError (prefix ++ error_Error err) err.

Module io.

(** An [io.Reader], by what reading it to the end gives: the bytes it
    delivers, and the error that ends the stream if it is not [io.EOF]. *)
Record Reader : Type := mkReader {
  delivered : string;
  failure : option error
}.

(** [io.ReadAll(r)] *)
Definition ReadAll (r : Reader) : string * option error :=
  (delivered r, failure r).

End io.

(** ** The store *)

(** An instant of [time.Time]; [time_zero] is the zero value. *)
Definition time_Time : Type := Z.
Definition time_zero : time_Time := 0.

Record Email : Type := mkEmail {
  Email_ID : string;
  Email_From : string;
  Email_Subject : string;
  Email_Body : string;
  Email_Time : time_Time;
  Email_To : list string
}.

Definition Email_with_ID (e : Email) (id : string) : Email :=
  {| Email_ID := id; Email_From := Email_From e;
     Email_Subject := Email_Subject e; Email_Body := Email_Body e;
     Email_Time := Email_Time e; Email_To := Email_To e |}.

Definition Email_with_Time (e : Email) (t : time_Time) : Email :=
  {| Email_ID := Email_ID e; Email_From := Email_From e;
     Email_Subject := Email_Subject e; Email_Body := Email_Body e;
     Email_Time := t; Email_To := Email_To e |}.

(** The [Server]: the captured messages, the two ports, and the line limit
    [New] gives the SMTP server.  The listeners, the logger and the mutex
    take no part in what follows; the mutex is why each method below is
    one step. *)
Record Server : Type := mkServer {
  messages : list Email;
  smtpPort : Z;
  httpPort : Z;
  smtp_MaxLineLength : Z
}.

Definition Server_with_messages (s : Server) (ms : list Email) : Server :=
  {| messages := ms; smtpPort := smtpPort s; httpPort := httpPort s;
     smtp_MaxLineLength := smtp_MaxLineLength s |}.

Definition New (smtpPort httpPort : Z) : Server :=
  {| messages := [];
     smtpPort := smtpPort;
     httpPort := httpPort;
     smtp_MaxLineLength := 16 * 1024 * 1024 |}.

Definition NewWithDefaults : Server := New 1025 8025.

(** [Server.Emails]: a copy of the slice. *)
Definition Server_Emails (s : Server) : list Email := messages s.

(** [Server.Email]: a copy of the first record with the given ID, [None]
    for Go's [nil]. *)
Fixpoint Email_lookup (ms : list Email) (id : string) : option Email :=
  match ms with
  | [] => None
  | m :: rest => if String.eqb (Email_ID m) id then Some m else Email_lookup rest id
  end.

Definition Server_Email (s : Server) (id : string) : option Email :=
  Email_lookup (messages s) id.

(** [Server.Clear] *)
Definition Server_Clear (s : Server) : Server := Server_with_messages s [].

(** [Server.addMessage]; [now] is what [time.Now()] returns in the call. *)
Definition Server_addMessage (s : Server) (email : Email) (now : time_Time) : Server :=
  let email := Email_with_ID email (fmt.Sprintf_msg (Z.of_nat (List.length (messages s)))) in
  let email := Email_with_Time email now in
  Server_with_messages s (messages s ++ [email]).

(** The two mutations of the store, and a run of them. *)
Inductive store_op : Type :=
| op_add (email : Email) (now : time_Time)
| op_clear.

Definition store_step (s : Server) (o : store_op) : Server :=
  match o with
  | op_add email now => Server_addMessage s email now
  | op_clear => Server_Clear s
  end.

Definition store_run (s : Server) (ops : list store_op) : Server :=
  fold_left store_step ops s.

(** Appends only. *)
Definition add_all (s : Server) (drafts : list (Email * time_Time)) : Server :=
  fold_left (fun s d => Server_addMessage s (fst d) (snd d)) drafts s.

(** ** The session *)

Record session : Type := mkSession {
  from : string;
  to : list string
}.

(** [backend.NewSession] *)
Definition NewSession : session := {| from := EmptyString; to := [] |}.

(** A method of the session: the session and the store after the call, and
    the error returned ([None] for [nil]).

    [Data] stores the slice [s.to] itself in the record, so the record and
    the session share a backing array.  [Rcpt] only appends: it writes
    past the length the record holds, or into a new array, and the
    elements the record sees never change.  The recipients of a record are
    therefore a value, a list, here. *)
Definition outcome : Type := session * Server * option error.

Definition session_AuthPlain (s : session) (srv : Server) (username password : string) : outcome :=
  (s, srv, None).

Definition session_Mail (s : session) (srv : Server) (from' : string) : outcome :=
  ({| from := from'; to := to s |}, srv, None).

Definition session_Rcpt (s : session) (srv : Server) (to' : string) : outcome :=
  ({| from := from s; to := to s ++ [to'] |}, srv, None).

Definition session_Data (s : session) (srv : Server) (r : io.Reader) (now : time_Time) : outcome :=
  let (body, err) := io.ReadAll r in
  match err with
  | Some e => (s, srv, Some (Errorf_w "failed to read email data: " e))
  | None =>
      let subject := parseSubject body in
      let email := {| Email_ID := EmptyString;
                      Email_From := from s;
                      Email_Subject := subject;
                      Email_Body := body;
                      Email_Time := time_zero;
                      Email_To := to s |} in
      (s, Server_addMessage srv email now, None)
  end.

Definition session_Reset (s : session) (srv : Server) : outcome :=
  ({| from := EmptyString; to := [] |}, srv, None).

Definition session_Logout (s : session) (srv : Server) : outcome :=
  (s, srv, None).

(** The calls the SMTP library makes on a session. *)
Inductive command : Type :=
| AUTH (username password : string)
| MAIL (from' : string)
| RCPT (to' : string)
| DATA (r : io.Reader) (now : time_Time)
| RSET
| QUIT.

Definition session_call (c : command) (s : session) (srv : Server) : outcome :=
  match c with
  | AUTH u p => session_AuthPlain s srv u p
  | MAIL f => session_Mail s srv f
  | RCPT t => session_Rcpt s srv t
  | DATA r now => session_Data s srv r now
  | RSET => session_Reset s srv
  | QUIT => session_Logout s srv
  end.

(** A sequence of calls; the errors returned are collected in order. *)
Fixpoint session_calls (cs : list command) (s : session) (srv : Server)
  : session * Server * list error :=
  match cs with
  | [] => (s, srv, [])
  | c :: cs' =>
      match session_call c s srv with
      | (s1, srv1, err) =>
          match session_calls cs' s1 srv1 with
          | (s2, srv2, errs) =>
              (s2, srv2, match err with Some e => e :: errs | None => errs end)
          end
      end
  end.

(** ** The query interface *)

Module http.

Definition StatusOK : Z := 200.
Definition StatusBadRequest : Z := 400.
Definition StatusNotFound : Z := 404.
Definition StatusInternalServerError : Z := 500.

(** What the handler leaves in the [ResponseWriter]. *)
Record Response : Type := mkResponse {
  StatusCode : Z;
  ContentType : string;
  Body : string
}.

(** [http.Error(w, msg, code)] *)
Definition Error (msg : string) (code : Z) : Response :=
  {| StatusCode := code;
     ContentType := "text/plain; charset=utf-8";
     Body := msg ++ String LF EmptyString |}.

End http.

Section Handlers.

(** [json.Marshal] at type [Email]: the JSON text, or [None] for an
    error of the encoder. *)
Variable json_Marshal : Email -> option string.

(** [Server.handleGetEmail], on the path of the request URL.  The slice
    expression panics on a path shorter than the prefix ([None]); the
    route "GET /api/v1/emails/" only passes paths that start with it. *)
Definition Server_handleGetEmail (s : Server) (path : string) : option http.Response :=
  match slice_from path (String.length "/api/v1/emails/") with
  | None => None
  | Some id =>
      if is_empty id then
        Some (http.Error "Email ID is required" http.StatusBadRequest)
      else
        match Server_Email s id with
        | None => Some (http.Error "Email not found" http.StatusNotFound)
        | Some email =>
            match json_Marshal email with
            | Some js =>
                Some {| http.StatusCode := http.StatusOK;
                        http.ContentType := "application/json";
                        http.Body := js ++ String LF EmptyString |}
            | None =>
                Some (http.Error "Failed to encode response"
                                 http.StatusInternalServerError)
            end
        end
  end.

End Handlers.

(** ** Process configuration *)

Module os.

(** The environment of the process: variables and their values. *)
Definition Environ : Type := list (string * string).

(** [os.Getenv(key)]: the empty string for a variable that is not set. *)
Fixpoint Getenv (env : Environ) (key : string) : string :=
  match env with
  | [] => EmptyString
  | (k, v) :: rest => if String.eqb k key then v else Getenv rest key
  end.

End os.

Module flag.

Inductive Value : Type :=
| IntValue (v : Z)
| BoolValue (b : bool).

(** The flags set on the command line, in the order they were given,
    with the values [flag.Parse] read for them. *)
Definition FlagSet : Type := list (string * Value).

(** The value a flag is left with: its last setting. *)
Definition lookup (fs : FlagSet) (name : string) : option Value :=
  fold_left (fun acc f => if String.eqb (fst f) name then Some (snd f) else acc)
            fs None.

(** [*flag.Int(name, value, usage)] after [flag.Parse()] *)
Definition Int (fs : FlagSet) (name : string) (value : Z) : Z :=
  match lookup fs name with
  | Some (IntValue v) => v
  | _ => value
  end.

(** [*flag.Bool(name, value, usage)] after [flag.Parse()] *)
Definition Bool (fs : FlagSet) (name : string) (value : bool) : bool :=
  match lookup fs name with
  | Some (BoolValue b) => b
  | _ => value
  end.

(** [flag.Visit]: the names of the flags that have been set. *)
Definition Visit (fs : FlagSet) : list string := map fst fs.

End flag.

(** [isFlagPassed] *)
Definition isFlagPassed (fs : flag.FlagSet) (name : string) : bool :=
  fold_left (fun found f => if String.eqb f name then true else found)
            (flag.Visit fs) false.

(** One of the two blocks of [main] that look at the environment: [port]
    is the flag's variable, [name] the flag and [key] the variable of the
    environment. *)
Definition main_port (fs : flag.FlagSet) (env : os.Environ)
           (name key : string) (port : Z) : Z :=
  if negb (isFlagPassed fs name) then
    let value := os.Getenv env key in
    if negb (is_empty value) then
      match fmt.Sscanf_d value with
      | Some v => v
      | None => port     (* the warning is logged *)
      end
    else port
  else port.

(** [main] up to the call of [mailcatcher.New]: the two ports the server
    is created with, or [None] when the version is printed and the process
    exits. *)
Definition main_ports (fs : flag.FlagSet) (env : os.Environ) : option (Z * Z) :=
  let smtpPort := flag.Int fs "smtp-port" 1025 in
  let httpPort := flag.Int fs "http-port" 8025 in
  let showVersion := flag.Bool fs "version" false in
  if showVersion then None
  else
    let smtpPort := main_port fs env "smtp-port" "MAILCATCHER_SMTP_PORT" smtpPort in
    let httpPort := main_port fs env "http-port" "MAILCATCHER_HTTP_PORT" httpPort in
    Some (smtpPort, httpPort).

(** [getEnvInt] *)
Definition getEnvInt (env : os.Environ) (key : string) (defaultValue : Z) : Z :=
  let value := os.Getenv env key in
  if is_empty value then defaultValue
  else
    match strconv.Atoi value with
    | None => defaultValue
    | Some intValue => intValue
    end.

(** The server [DefaultServer] creates when none is running. *)
Definition DefaultServer_new (env : os.Environ) : Server :=
  let smtpPort := getEnvInt env "MAILCATCHER_SMTP_PORT" 1025 in
  let httpPort := getEnvInt env "MAILCATCHER_HTTP_PORT" 8025 in
  New smtpPort httpPort.

(** ** The header scan in the words of the specification

    Lines end at a line feed, with the carriage return before it dropped;
    the first empty line ends the headers; of each line before it, the
    part before the first colon is compared with the field name without
    regard to case, and the first match gives the label: what follows the
    colon, trimmed. *)

Module Spec.

(** The lines of a text; a last line without line feed counts when it is
    not empty. *)
Fixpoint lines (s : string) : list string :=
  match s with
  | EmptyString => []
  | String c rest =>
      if Ascii.eqb c LF then EmptyString :: lines rest
      else
        match lines rest with
        | [] => [String c EmptyString]
        | l :: ls => String c l :: ls
        end
  end.

(** The part before the first colon and the part after it. *)
Fixpoint cut_colon (line : string) : option (string * string) :=
  match line with
  | EmptyString => None
  | String c rest =>
      if Ascii.eqb c ":"%char then Some (EmptyString, rest)
      else
        match cut_colon rest with
        | Some (name, value) => Some (String c name, value)
        | None => None
        end
  end.

(** The value of a line that carries the field [name] (in lower case). *)
Definition field_value (name line : string) : option string :=
  match cut_colon line with
  | Some (n, value) =>
      if String.eqb (strings.ToLower n) name then Some value else None
  | None => None
  end.

Fixpoint header_scan (ls : list string) : string :=
  match ls with
  | [] => EmptyString
  | line :: ls' =>
      if is_empty line then EmptyString
      else
        match field_value "subject" line with
        | Some value => strings.TrimSpace value
        | None => header_scan ls'
        end
  end.

Definition displayLabel (body : string) : string :=
  header_scan (map bufio.dropCR (lines body)).

(** The lines of the header block: those before the first empty line. *)
Fixpoint header_block (ls : list string) : list string :=
  match ls with
  | [] => []
  | line :: ls' =>
      if is_empty (bufio.dropCR line) then [] else line :: header_block ls'
  end.

(** The record the store keeps for the draft [d] appended as number [i]
    at time [snd d]. *)
Definition finalized (i : nat) (d : Email * time_Time) : Email :=
  {| Email_ID := fmt.Sprintf_msg (Z.of_nat i);
     Email_From := Email_From (fst d);
     Email_Subject := Email_Subject (fst d);
     Email_Body := Email_Body (fst d);
     Email_Time := snd d;
     Email_To := Email_To (fst d) |}.

Fixpoint finalized_from (i : nat) (ds : list (Email * time_Time)) : list Email :=
  match ds with
  | [] => []
  | d :: ds' => finalized i d :: finalized_from (S i) ds'
  end.





(** A text that parses as an integer: an optional sign, then one or more
    decimal digits and nothing else, with a value that fits Go's [int]. *)
Definition digit (c : ascii) : option Z :=
  if (48 <=? byte_val c) && (byte_val c <=? 57) then Some (byte_val c - 48)
  else None.

(** The number a text of digits writes: each digit counts by its place. *)
Fixpoint digits (s : string) : option Z :=
  match s with
  | EmptyString => Some 0
  | String c rest =>
      match digit c, digits rest with
      | Some d, Some v => Some (d * 10 ^ len rest + v)
      | _, _ => None
      end
  end.

Definition integer_text (value : string) : option Z :=
  match value with
  | EmptyString => None
  | String c rest =>
      let negative := Ascii.eqb c "-"%char in
      let body := if negative || Ascii.eqb c "+"%char then rest else value in
      if is_empty body then None
      else
        match digits body with
        | Some n =>
            let z := if negative then - n else n in
            if (- 2 ^ 63 <=? z) && (z <? 2 ^ 63) then Some z else None
        | None => None
        end
  end.

(** The port by the rule of the configuration: the value of the flag when
    the flag was passed; else the variable of the environment when it is
    not empty and parses as an integer; else the compiled default. *)
Definition port_by_rule (passed : option Z) (value : string) (default : Z) : Z :=
  match passed with
  | Some v => v
  | None =>
      if is_empty value then default
      else
        match integer_text value with
        | Some n => n
        | None => default
        end
  end.

End Spec.

(** ** Inputs used below *)

Definition blank_line_end : string := String LF (String LF EmptyString).

(** A first header line of 65536 bytes, then a Subject line. *)
Definition body_long_first_line : string :=
  repeat_byte "a"%char (Z.to_nat 65536)
  ++ String LF ("Subject: x" ++ blank_line_end).

(** A Subject line of 65536 bytes: the field name, the colon, a space and
    65527 letters. *)
Definition long_subject : string := repeat_byte "a"%char (Z.to_nat 65527).

Definition body_long_subject : string :=
  "Subject: " ++ long_subject ++ CRLF ++ CRLF ++ "Hi".

Definition reader_of (body : string) : io.Reader :=
  {| io.delivered := body; io.failure := None |}.

Definition broken_reader : io.Reader :=
  {| io.delivered := "Subject: cut";
     io.failure := Some (errorString "unexpected EOF") |}.

Definition draft (f : string) (ts : list string) (body : string) : Email :=
  {| Email_ID := EmptyString; Email_From := f;
     Email_Subject := parseSubject body; Email_Body := body;
     Email_Time := time_zero; Email_To := ts |}.

(** One message, a clear, then two messages. *)
Definition example_ops : list store_op :=
  [op_add (draft "a@x.com" ["b@x.com"] "Subject: T") 5;
   op_clear;
   op_add (draft "c@x.com" ["d@x.com"] "Subject: U") 6;
   op_add (draft "e@x.com" [] "Subject: V") 7].



Definition example_flags : flag.FlagSet := [("http-port", flag.IntValue 9000)].

Definition example_env : os.Environ :=
  [("MAILCATCHER_SMTP_PORT", "2525"); ("MAILCATCHER_HTTP_PORT", "7000")].

(** An environment whose two variables begin with digits and are no
    integers. *)
Definition env_not_integers : os.Environ :=
  [("MAILCATCHER_SMTP_PORT", "2525x"); ("MAILCATCHER_HTTP_PORT", "80.5")].

(** An encoder for the examples; only its being defined matters there. *)
Definition marshal_id (e : Email) : option string := Some (Email_ID e).

(** ** The rest of the query interface *)

Definition http_StatusNoContent : Z := 204.

(** A value of Go's [any] as the list endpoint stores it in its map. *)
Inductive any : Type :=
| any_int (n : Z)
| any_emails (emails : list Email).

(** [map[string]any]: the keys with their values. *)
Definition json_object : Type := list (string * any).

Fixpoint object_get (o : json_object) (key : string) : option any :=
  match o with
  | [] => None
  | (k, v) :: rest => if String.eqb k key then Some v else object_get rest key
  end.

Section ListHandler.

(** [json.Marshal] at the map of the list endpoint. *)
Variable json_Marshal_object : json_object -> option string.

(** [Server.handleGetEmails], with the map it encodes. *)
Definition handleGetEmails_object (s : Server) : json_object :=
  let emails := Server_Emails s in
  [("total", any_int (Z.of_nat (List.length emails)));
   ("count", any_int (Z.of_nat (List.length emails)));
   ("items", any_emails emails)].

Definition Server_handleGetEmails (s : Server) : http.Response :=
  match json_Marshal_object (handleGetEmails_object s) with
  | Some js =>
      {| http.StatusCode := http.StatusOK;
         http.ContentType := "application/json";
         http.Body := js ++ String LF EmptyString |}
  | None =>
      http.Error "Failed to encode response" http.StatusInternalServerError
  end.

End ListHandler.

(** [Server.handleDeleteEmails]: the store after the request and the
    response, which has a status and nothing else. *)
Definition Server_handleDeleteEmails (s : Server) : Server * http.Response :=
  (Server_Clear s,
   {| http.StatusCode := http_StatusNoContent;
      http.ContentType := EmptyString;
      http.Body := EmptyString |}).

(** The headers [corsMiddleware] sets on every response. *)
Definition cors_headers : list (string * string) :=
  [("Access-Control-Allow-Origin", "*");
   ("Access-Control-Allow-Methods", "GET, POST, DELETE, OPTIONS");
   ("Access-Control-Allow-Headers", "Content-Type")].

(** [corsMiddleware(next)] on a request with the given method: the store
    after the request, the headers set by the middleware, and the rest of
    the response.  A handler is a function of the store. *)
Definition corsMiddleware (next : Server -> Server * http.Response)
           (method : string) (s : Server)
  : Server * (list (string * string) * http.Response) :=
  if String.eqb method "OPTIONS" then
    (s, (cors_headers,
         {| http.StatusCode := http_StatusNoContent;
            http.ContentType := EmptyString;
            http.Body := EmptyString |}))
  else
    let (s', response) := next s in
    (s', (cors_headers, response)).

(** ** Several connections on one server

    The SMTP library gives every connection a session of its own
    ([backend.NewSession]) and all sessions hold the same [*Server].  An
    event is a call on the session of one connection. *)

Definition sessions : Type := nat -> session.

Definition fresh_sessions : sessions := fun _ => NewSession.

Definition set_session (ss : sessions) (i : nat) (s : session) : sessions :=
  fun j => if Nat.eqb j i then s else ss j.

Fixpoint serve (events : list (nat * command)) (ss : sessions) (srv : Server)
  : sessions * Server * list error :=
  match events with
  | [] => (ss, srv, [])
  | (i, c) :: events' =>
      match session_call c (ss i) srv with
      | (s1, srv1, err) =>
          match serve events' (set_session ss i s1) srv1 with
          | (ss2, srv2, errs) =>
              (ss2, srv2, match err with Some e => e :: errs | None => errs end)
          end
      end
  end.

(** ** The default server of the package

    [globalServer] is [None] for [nil]; it and the pointer [DefaultServer]
    returns name one server, whose state is the value held here.
    [Server.Start] and [Server.Stop] talk to the network: what they return
    is an input. *)

Definition DefaultServer (globalServer : option Server) (env : os.Environ)
           (Start : Server -> option error)
  : option Server * (option Server * option error) :=
  match globalServer with
  | Some s => (globalServer, (Some s, None))
  | None =>
      let smtpPort := getEnvInt env "MAILCATCHER_SMTP_PORT" 1025 in
      let httpPort := getEnvInt env "MAILCATCHER_HTTP_PORT" 8025 in
      let server := New smtpPort httpPort in
      match Start server with
      | Some err =>
          (None, (None, Some (Errorf_w "failed to start mail catcher: " err)))
      | None => (Some server, (Some server, None))
      end
  end.

Definition StopDefault (globalServer : option Server)
           (Stop : Server -> option error)
  : option Server * option error :=
  match globalServer with
  | None => (None, None)
  | Some s => (None, Stop s)
  end.

(** What a program does with the default server: it asks for it, stops
    it, or, through the pointer it was given, appends to the store or
    clears it (nothing happens when no server is running). *)
Inductive global_action : Type :=
| call_DefaultServer (env : os.Environ) (Start : Server -> option error)
| call_StopDefault (Stop : Server -> option error)
| on_server (o : store_op).

Definition global_step (globalServer : option Server) (a : global_action)
  : option Server :=
  match a with
  | call_DefaultServer env Start => fst (DefaultServer globalServer env Start)
  | call_StopDefault Stop => fst (StopDefault globalServer Stop)
  | on_server o =>
      match globalServer with
      | Some s => Some (store_step s o)
      | None => None
      end
  end.

Definition global_run (globalServer : option Server) (actions : list global_action)
  : option Server :=
  fold_left global_step actions globalServer.

Definition is_stop (a : global_action) : bool :=
  match a with call_StopDefault _ => true | _ => false end.

(** The operations on the store among some actions. *)
Fixpoint store_ops_of (actions : list global_action) : list store_op :=
  match actions with
  | [] => []
  | on_server o :: actions' => o :: store_ops_of actions'
  | _ :: actions' => store_ops_of actions'
  end.

(** ** Words for the statements below *)

Definition is_add (o : store_op) : bool :=
  match o with op_add _ _ => true | op_clear => false end.

(** The number of records after an operation, from the number before. *)
Definition count_step (n : nat) (o : store_op) : nat :=
  match o with op_add _ _ => S n | op_clear => O end.

(** The bodies of the transmissions that are read to the end, and the
    errors of those that are not, in the order of the calls. *)
Fixpoint delivered_bodies (cs : list command) : list string :=
  match cs with
  | [] => []
  | DATA r _ :: cs' =>
      match io.failure r with
      | None => io.delivered r :: delivered_bodies cs'
      | Some _ => delivered_bodies cs'
      end
  | _ :: cs' => delivered_bodies cs'
  end.

Fixpoint read_errors (cs : list command) : list error :=
  match cs with
  | [] => []
  | DATA r _ :: cs' =>
      match io.failure r with
      | None => read_errors cs'
      | Some e => Errorf_w "failed to read email data: " e :: read_errors cs'
      end
  | _ :: cs' => read_errors cs'
  end.

(** The calls that change nothing: authentication and logout. *)
Definition is_noop (c : command) : bool :=
  match c with AUTH _ _ | QUIT => true | _ => false end.

(** The calls of connection [j] among some events. *)
Fixpoint commands_of (j : nat) (events : list (nat * command)) : list command :=
  match events with
  | [] => []
  | (i, c) :: events' =>
      if Nat.eqb i j then c :: commands_of j events' else commands_of j events'
  end.

(** The loop of [parseSubject] on the lines of the body: a line of
    [MaxScanTokenSize] bytes or more ends it, like the end of the lines. *)
Fixpoint parseSubject_lines (ls : list string) : string :=
  match ls with
  | [] => EmptyString
  | l :: ls' =>
      if len l <? bufio.MaxScanTokenSize then
        let line := bufio.dropCR l in
        if is_empty line then EmptyString
        else if strings.HasPrefix (strings.ToLower line) "subject:" then
          match slice_from line 8 with
          | Some rest => strings.TrimSpace rest
          | None => EmptyString
          end
        else parseSubject_lines ls'
      else EmptyString
  end.

(** A body for the examples: two header lines, the empty line, a text. *)
Definition example_body : string :=
  "From: a@x.com" ++ CRLF ++ "SUBJECT:  Hello " ++ CRLF ++ CRLF ++ "Subject: no".

Definition example_events : list (nat * command) :=
  [(1%nat, MAIL "a@x.com"); (2%nat, MAIL "c@x.com"); (1%nat, RCPT "b@x.com");
   (2%nat, DATA (reader_of example_body) 5); (1%nat, DATA broken_reader 6);
   (2%nat, RSET); (1%nat, DATA (reader_of "Subject: T") 7)].

Definition start_ok (s : Server) : option error := None.

Definition start_fails (s : Server) : option error :=
  Some (errorString "address already in use").

Definition example_actions : list global_action :=
  [on_server (op_add (draft "a@x.com" ["b@x.com"] "Subject: T") 5);
   call_DefaultServer [("MAILCATCHER_SMTP_PORT", "2626")] start_fails;
   on_server (op_add (draft "c@x.com" [] "Subject: U") 6)].

(** * Properties *)

(** ** Strings *)

Lemma rev_onto_length (s acc : string) :
  String.length (rev_onto s acc) = (String.length s + String.length acc)%nat.
Proof.
  revert acc; induction s as [|c s IH]; intros acc; simpl.
  - reflexivity.
  - rewrite IH. simpl. lia.
Qed.

Lemma rev_string_length (s : string) :
  String.length (rev_string s) = String.length s.
Proof. unfold rev_string. rewrite rev_onto_length. simpl. lia. Qed.

Lemma dropCR_length (l : string) :
  (String.length l <= S (String.length (bufio.dropCR l)))%nat.
Proof.
  unfold bufio.dropCR.
  destruct (rev_string l) as [|c r] eqn:E; [lia|].
  destruct (Ascii.eqb c CR); [|lia].
  rewrite rev_string_length.
  rewrite <- (rev_string_length l), E. simpl. lia.
Qed.

Lemma blank_line_short (l : string) :
  is_empty (bufio.dropCR l) = true -> len l < bufio.MaxScanTokenSize.
Proof.
  intros H. pose proof (dropCR_length l) as L.
  destruct (bufio.dropCR l); [|discriminate].
  unfold len, bufio.MaxScanTokenSize. simpl in L. lia.
Qed.

Lemma lower_byte_colon (c : ascii) :
  Ascii.eqb (strings.lower_byte c) ":"%char = Ascii.eqb c ":"%char.
Proof. destruct c as [[] [] [] [] [] [] [] []]; reflexivity. Qed.

Lemma HasPrefix_slice (p line : string) :
  strings.HasPrefix (strings.ToLower line) p = true ->
  exists rest, slice_from line (String.length p) = Some rest.
Proof.
  revert line; induction p as [|a p IH]; intros line H; simpl in *.
  - now exists line.
  - destruct line as [|c line]; simpl in H; [discriminate|].
    apply andb_true_iff in H as [_ H]. now apply IH.
Qed.

(** The test of the code on a line, [HasPrefix(ToLower(line), name + ":")]
    followed by [line[len(name)+1:]], finds the value of the field exactly
    when the part of the line before its first colon is [name] up to case. *)
Lemma prefix_test_field_value (name line : string) :
  Spec.cut_colon name = None ->
  (if strings.HasPrefix (strings.ToLower line) (name ++ ":")
   then slice_from line (S (String.length name)) else None)
  = Spec.field_value name line.
Proof.
  unfold Spec.field_value.
  revert line; induction name as [|a name IH]; intros line Hname.
  - destruct line as [|c line]; [reflexivity|]. simpl.
    rewrite lower_byte_colon, andb_true_r.
    destruct (Ascii.eqb c ":"%char); [reflexivity|].
    destruct (Spec.cut_colon line) as [[n v]|]; reflexivity.
  - simpl in Hname.
    destruct (Ascii.eqb a ":"%char) eqn:Ea; [discriminate|].
    assert (Hn : Spec.cut_colon name = None)
      by (destruct (Spec.cut_colon name) as [[n v]|]; [discriminate|reflexivity]).
    specialize (IH).
    destruct line as [|c line]; [reflexivity|].
    change (strings.HasPrefix (strings.ToLower (String c line)) (String a name ++ ":"))
      with (Ascii.eqb (strings.lower_byte c) a
            && strings.HasPrefix (strings.ToLower line) (name ++ ":")).
    change (slice_from (String c line) (S (String.length (String a name))))
      with (slice_from line (S (String.length name))).
    change (Spec.cut_colon (String c line))
      with (if Ascii.eqb c ":"%char then Some (EmptyString, line)
            else match Spec.cut_colon line with
                 | Some (n, v) => Some (String c n, v)
                 | None => None
                 end).
    destruct (Ascii.eqb c ":"%char) eqn:Ec.
    + apply Ascii.eqb_eq in Ec; subst c.
      change (strings.lower_byte ":"%char) with ":"%char.
      rewrite Ascii.eqb_sym, Ea. reflexivity.
    + specialize (IH line Hn).
      destruct (Ascii.eqb (strings.lower_byte c) a) eqn:El; simpl andb.
      * rewrite IH.
        destruct (Spec.cut_colon line) as [[n v]|]; [|reflexivity].
        simpl. rewrite El. reflexivity.
      * destruct (Spec.cut_colon line) as [[n v]|]; [|reflexivity].
        simpl. rewrite El. reflexivity.
Qed.

(** ** The scanner *)

Lemma cutLF_lines (s line after : string) :
  bufio.cutLF s = Some (line, after) ->
  Spec.lines s = line :: Spec.lines after
  /\ String.length s = S (String.length line + String.length after).
Proof.
  revert line; induction s as [|c s IH]; intros line H; simpl in H; [discriminate|].
  simpl. destruct (Ascii.eqb c LF).
  - inversion H; subst. split; reflexivity.
  - destruct (bufio.cutLF s) as [[l a]|]; [|discriminate].
    inversion H; subst. destruct (IH l eq_refl) as [-> ->].
    split; reflexivity.
Qed.

Lemma cutLF_none_lines (s : string) :
  bufio.cutLF s = None -> s <> EmptyString -> Spec.lines s = [s].
Proof.
  induction s as [|c s IH]; intros H Hne; [congruence|].
  simpl in *. destruct (Ascii.eqb c LF); [discriminate|].
  destruct (bufio.cutLF s) as [[l a]|] eqn:E; [discriminate|].
  destruct s as [|d s]; [reflexivity|].
  rewrite IH; [reflexivity|reflexivity|discriminate].
Qed.

Lemma lines_nonempty (c : ascii) (s : string) : Spec.lines (String c s) <> [].
Proof.
  simpl. destruct (Ascii.eqb c LF); [discriminate|].
  destruct (Spec.lines s); discriminate.
Qed.

(** A turn of the scanner on a first line that fits the buffer. *)
Lemma Scan_line (s tok l : string) (ls : list string) :
  Spec.lines s = l :: ls ->
  len l < bufio.MaxScanTokenSize ->
  exists after,
    bufio.Scan (bufio.mkScanner s tok false)
    = (true, bufio.mkScanner after (bufio.dropCR l) false)
    /\ Spec.lines after = ls
    /\ (String.length after < String.length s)%nat.
Proof.
  intros Hl Hshort. unfold bufio.Scan. cbn [bufio.tooLong bufio.unread].
  destruct s as [|c s]; [discriminate|].
  destruct (bufio.cutLF (String c s)) as [[line after]|] eqn:E.
  - destruct (cutLF_lines _ _ _ E) as [L N].
    rewrite L in Hl; inversion Hl; subst.
    apply Z.ltb_lt in Hshort. rewrite Hshort.
    exists after. repeat split. lia.
  - rewrite (cutLF_none_lines _ E) in Hl by discriminate.
    inversion Hl; subst.
    apply Z.ltb_lt in Hshort. rewrite Hshort.
    exists EmptyString. repeat split. simpl. lia.
Qed.

(** A turn of the scanner on a first line that does not fit. *)
Lemma Scan_too_long (s tok l : string) (ls : list string) :
  Spec.lines s = l :: ls ->
  bufio.MaxScanTokenSize <= len l ->
  fst (bufio.Scan (bufio.mkScanner s tok false)) = false.
Proof.
  intros Hl Hlong. unfold bufio.Scan. cbn [bufio.tooLong bufio.unread].
  destruct s as [|c s]; [discriminate|].
  destruct (bufio.cutLF (String c s)) as [[line after]|] eqn:E.
  - destruct (cutLF_lines _ _ _ E) as [L N].
    rewrite L in Hl; inversion Hl; subst.
    apply Z.ltb_ge in Hlong. rewrite Hlong. reflexivity.
  - rewrite (cutLF_none_lines _ E) in Hl by discriminate.
    inversion Hl; subst.
    apply Z.ltb_ge in Hlong. rewrite Hlong. reflexivity.
Qed.

(** Every successful turn consumes input. *)
Lemma Scan_consumes (sc sc' : bufio.Scanner) :
  bufio.Scan sc = (true, sc') ->
  (String.length (bufio.unread sc') < String.length (bufio.unread sc))%nat.
Proof.
  unfold bufio.Scan. destruct (bufio.tooLong sc); [discriminate|].
  destruct (bufio.unread sc) as [|c s] eqn:U; [discriminate|].
  destruct (bufio.cutLF (String c s)) as [[line after]|] eqn:E.
  - destruct (cutLF_lines _ _ _ E) as [_ N].
    destruct (len line <? bufio.MaxScanTokenSize); [|discriminate].
    intros H; inversion H; subst; cbn [bufio.unread]. lia.
  - destruct (len (String c s) <? bufio.MaxScanTokenSize); [|discriminate].
    intros H; inversion H; subst; cbn [bufio.unread]. simpl. lia.
Qed.

(** ** [parseSubject] *)

(** The loop never stops for lack of fuel. *)
Lemma parseSubject_loop_fuel (f1 f2 : nat) (sc : bufio.Scanner) :
  (String.length (bufio.unread sc) < f1)%nat ->
  (String.length (bufio.unread sc) < f2)%nat ->
  parseSubject_loop f1 sc = parseSubject_loop f2 sc.
Proof.
  revert f2 sc; induction f1 as [|f1 IH]; intros f2 sc H1 H2; [lia|].
  destruct f2 as [|f2]; [lia|].
  cbn [parseSubject_loop]. destruct (bufio.Scan sc) as [more sc'] eqn:E.
  destruct more; [|reflexivity].
  pose proof (Scan_consumes _ _ E) as D.
  destruct (is_empty (bufio.Text sc')); [reflexivity|].
  destruct (strings.HasPrefix (strings.ToLower (bufio.Text sc')) "subject:");
    [reflexivity|].
  apply IH; lia.
Qed.

(** On a body whose header lines all fit the buffer of the scanner, the
    loop computes the header scan of the specification. *)
Lemma parseSubject_loop_header_scan (fuel : nat) (s tok : string) :
  (String.length s < fuel)%nat ->
  Forall (fun l => len l < bufio.MaxScanTokenSize)
         (Spec.header_block (Spec.lines s)) ->
  parseSubject_loop fuel (bufio.mkScanner s tok false)
  = Spec.header_scan (map bufio.dropCR (Spec.lines s)).
Proof.
  revert s tok; induction fuel as [|fuel IH]; intros s tok Hf Hs; [lia|].
  destruct (Spec.lines s) as [|l ls] eqn:L.
  - destruct s as [|c s]; [reflexivity|]. now apply lines_nonempty in L.
  - assert (Hshort : len l < bufio.MaxScanTokenSize).
    { simpl in Hs. destruct (is_empty (bufio.dropCR l)) eqn:B.
      - now apply blank_line_short.
      - now inversion Hs. }
    destruct (Scan_line s tok l ls L Hshort) as (after & E & La & Hlen).
    cbn [parseSubject_loop]. rewrite E. cbn [bufio.Text bufio.token map Spec.header_scan].
    simpl in Hs.
    destruct (is_empty (bufio.dropCR l)) eqn:B; [reflexivity|].
    pose proof (prefix_test_field_value "subject" (bufio.dropCR l) eq_refl) as P.
    change ("subject" ++ ":") with "subject:" in P.
    change (S (String.length "subject")) with 8%nat in P.
    destruct (strings.HasPrefix (strings.ToLower (bufio.dropCR l)) "subject:") eqn:HP.
    + destruct (HasPrefix_slice _ _ HP) as [rest R].
      change (String.length "subject:") with 8%nat in R.
      rewrite R in P |- *. rewrite <- P. reflexivity.
    + rewrite <- P. rewrite <- La. apply IH; [lia|].
      rewrite La. now inversion Hs.
Qed.

(** X1.  [parseSubject] agrees with the header scan of the specification
    on every body whose header block (the lines before the first empty
    line) has no line of 64 KiB or more. *)
Lemma parseSubject_displayLabel (body : string) :
  Forall (fun l => len l < bufio.MaxScanTokenSize)
         (Spec.header_block (Spec.lines body)) ->
  parseSubject body = Spec.displayLabel body.
Proof.
  intros H. unfold parseSubject, Spec.displayLabel, bufio.NewScanner.
  apply parseSubject_loop_header_scan; [lia|exact H].
Qed.

Example parseSubject_hello :
  parseSubject ("Subject: Hello" ++ CRLF ++ CRLF ++ "Body") = "Hello".
Proof. reflexivity. Qed.

Example parseSubject_just_text : parseSubject "just text" = EmptyString.
Proof. reflexivity. Qed.

Example parseSubject_spaced :
  parseSubject ("SUBJECT:   spaced  " ++ CRLF ++ CRLF) = "spaced".
Proof. reflexivity. Qed.

Example parseSubject_first_of_two :
  parseSubject ("Subject: first" ++ CRLF ++ "Subject: second" ++ CRLF ++ CRLF)
  = "first".
Proof. reflexivity. Qed.

(** A first line of 64 KiB or more ends the scan at once, whatever the
    lines after it hold. *)
Lemma parseSubject_long_first_line (body l : string) (ls : list string) :
  Spec.lines body = l :: ls ->
  bufio.MaxScanTokenSize <= len l ->
  parseSubject body = EmptyString.
Proof.
  intros Hl Hlong. unfold parseSubject, bufio.NewScanner.
  cbn [parseSubject_loop].
  pose proof (Scan_too_long body EmptyString l ls Hl Hlong) as H.
  destruct (bufio.Scan (bufio.mkScanner body EmptyString false)) as [more sc].
  simpl in H. subst more. reflexivity.
Qed.

(** C1.  The header scan reads the body line by line, stops at the first
    empty line, and returns the trimmed value of the first line whose name
    before the colon is "subject" up to case.  [parseSubject] does so while
    the lines fit the 64 KiB buffer of its scanner
    ([parseSubject_displayLabel], and the four bodies of the claim above);
    on a body whose first header line has 65536 bytes and whose second line
    is "Subject: x", the scanner stops with an error that [parseSubject]
    does not look at, and the result is empty where the scan of the claim
    gives "x". *)
Theorem parseSubject_stops_at_long_line :
  map len (Spec.lines body_long_first_line) = [bufio.MaxScanTokenSize; 10; 0]
  /\ nth_error (Spec.lines body_long_first_line) 1 = Some "Subject: x"
  /\ Spec.displayLabel body_long_first_line = "x"
  /\ parseSubject body_long_first_line = EmptyString.
Proof.
  split; [|split; [|split]]; vm_compute; reflexivity.
Qed.

(** C7.  A Subject line of up to 16 MiB is to be accepted and its trimmed
    value is to become the label.  The server is created with a line limit
    of 16 MiB, and a message whose Subject line has 65536 bytes is accepted
    and stored; but the scanner of [parseSubject] gives up on that line, so
    the record is stored with an empty subject, where the value of the line
    is the 65527 letters after "Subject: ". *)
Theorem Data_long_subject_line_empty_label :
  len long_subject = 65527
  /\ len ("Subject: " ++ long_subject) = bufio.MaxScanTokenSize
  /\ (len ("Subject: " ++ long_subject) <=? smtp_MaxLineLength (New 1025 8025)) = true
  /\ String.eqb (Spec.displayLabel body_long_subject) long_subject = true
  /\ snd (session_Data NewSession (New 1025 8025) (reader_of body_long_subject) 7) = None
  /\ map Email_Subject
         (Server_Emails
            (snd (fst (session_Data NewSession (New 1025 8025)
                                    (reader_of body_long_subject) 7))))
     = [EmptyString].
Proof.
  split; [|split; [|split; [|split; [|split]]]]; vm_compute; reflexivity.
Qed.

(** ** The store *)

Lemma Itoa_inj (n m : Z) : strconv.Itoa n = strconv.Itoa m -> n = m.
Proof.
  unfold strconv.Itoa. intros H.
  apply DecimalZ.to_int_inj.
  pose proof (NilEmpty.isi (Z.to_int n)) as Hn.
  pose proof (NilEmpty.isi (Z.to_int m)) as Hm.
  rewrite H in Hn. congruence.
Qed.

Lemma Sprintf_msg_inj (n m : Z) : fmt.Sprintf_msg n = fmt.Sprintf_msg m -> n = m.
Proof.
  unfold fmt.Sprintf_msg. simpl. intros H. inversion H. now apply Itoa_inj.
Qed.

Lemma addMessage_messages (s : Server) (email : Email) (now : time_Time) :
  messages (Server_addMessage s email now)
  = (messages s ++ [Spec.finalized (List.length (messages s)) (email, now)])%list.
Proof. reflexivity. Qed.

Lemma add_all_messages (ds : list (Email * time_Time)) (s : Server) :
  messages (add_all s ds)
  = (messages s ++ Spec.finalized_from (List.length (messages s)) ds)%list.
Proof.
  revert s; induction ds as [|d ds IH]; intros s; simpl.
  - now rewrite app_nil_r.
  - unfold add_all in *. simpl. rewrite IH, addMessage_messages.
    rewrite <- app_assoc. simpl. rewrite length_app. simpl.
    replace (List.length (messages s) + 1)%nat with (S (List.length (messages s))) by lia.
    destruct d; reflexivity.
Qed.

Lemma finalized_from_length (ds : list (Email * time_Time)) (k : nat) :
  List.length (Spec.finalized_from k ds) = List.length ds.
Proof. revert k; induction ds; intros k; simpl; [reflexivity|now rewrite IHds]. Qed.

Lemma finalized_from_nth (ds : list (Email * time_Time)) (k i : nat) (d : Email * time_Time) :
  nth_error ds i = Some d ->
  nth_error (Spec.finalized_from k ds) i = Some (Spec.finalized (k + i) d).
Proof.
  revert k i; induction ds as [|d0 ds IH]; intros k i H.
  - destruct i; discriminate.
  - destruct i as [|i]; simpl in *.
    + inversion H; subst. now rewrite Nat.add_0_r.
    + rewrite (IH (S k) i H). f_equal. f_equal. lia.
Qed.

Lemma finalized_from_ids (ds : list (Email * time_Time)) (k : nat) :
  map Email_ID (Spec.finalized_from k ds)
  = map (fun i => fmt.Sprintf_msg (Z.of_nat i)) (seq k (List.length ds)).
Proof.
  revert k; induction ds as [|d ds IH]; intros k; simpl; [reflexivity|].
  now rewrite IH.
Qed.

(** C2.  After N appends to an empty store, with no clear between them,
    [Emails] returns N records; the i-th is the i-th draft appended, with
    the identifier "msg-i" made from the length of the collection at its
    append (and the time of its append); so the identifiers are "msg-0"
    to "msg-(N-1)" in the order of the appends. *)
Theorem Emails_after_appends (s : Server) (drafts : list (Email * time_Time)) :
  messages s = [] ->
  let emails := Server_Emails (add_all s drafts) in
  List.length emails = List.length drafts
  /\ map Email_ID emails
     = map (fun i => "msg-" ++ strconv.Itoa (Z.of_nat i)) (seq 0 (List.length drafts))
  /\ (forall i d, nth_error drafts i = Some d ->
        nth_error emails i = Some (Spec.finalized i d)).
Proof.
  intros Hs emails. subst emails. unfold Server_Emails.
  rewrite add_all_messages, Hs. simpl.
  split; [apply finalized_from_length|].
  split; [apply finalized_from_ids|].
  intros i d H. now apply (finalized_from_nth drafts 0 i d).
Qed.

Lemma Emails_after_appends_witness :
  messages (New 1025 8025) = []
  /\ map Email_ID
         (Server_Emails
            (add_all (New 1025 8025)
                     [(draft "a@x.com" ["b@x.com"] "Subject: T", 5);
                      (draft "c@x.com" [] "no header", 6);
                      (draft "a@x.com" ["d@x.com"] "Subject: U", 9)]))
     = ["msg-0"; "msg-1"; "msg-2"].
Proof.
  split; [reflexivity|].
  exact (proj1 (proj2 (Emails_after_appends (New 1025 8025) _ eq_refl))).
Defined.

(** C3.  Whatever the store holds, [Clear] followed by one append leaves a
    store of one record, and its identifier is "msg-0". *)
Theorem Clear_then_add_restarts (s : Server) (email : Email) (now : time_Time) :
  let s' := Server_addMessage (Server_Clear s) email now in
  List.length (Server_Emails s') = 1%nat
  /\ Server_Emails s' = [Spec.finalized 0 (email, now)]
  /\ map Email_ID (Server_Emails s') = ["msg-0"].
Proof. repeat split. Qed.

(** The identifiers of the store are "msg-0", "msg-1", ... in order, in
    every state that appends and clears lead to. *)
Lemma store_run_ids (ops : list store_op) (s : Server) :
  map Email_ID (messages s)
  = map (fun i => fmt.Sprintf_msg (Z.of_nat i)) (seq 0 (List.length (messages s))) ->
  map Email_ID (messages (store_run s ops))
  = map (fun i => fmt.Sprintf_msg (Z.of_nat i))
        (seq 0 (List.length (messages (store_run s ops)))).
Proof.
  revert s; induction ops as [|o ops IH]; intros s H; [exact H|].
  unfold store_run in *. simpl. apply IH.
  destruct o as [email now|]; simpl; [|reflexivity].
  rewrite !map_app, length_app, seq_app, map_app, <- H. reflexivity.
Qed.

Lemma Email_lookup_by_position (ms : list Email) (k i : nat) (e : Email) :
  map Email_ID ms
  = map (fun i => fmt.Sprintf_msg (Z.of_nat i)) (seq k (List.length ms)) ->
  nth_error ms i = Some e ->
  Email_ID e = fmt.Sprintf_msg (Z.of_nat (k + i))
  /\ Email_lookup ms (fmt.Sprintf_msg (Z.of_nat (k + i))) = Some e.
Proof.
  revert k i; induction ms as [|m ms IH]; intros k i H Hi.
  - destruct i; discriminate.
  - simpl in H. inversion H as [[Hm Hrest]].
    destruct i as [|i]; simpl in Hi.
    + inversion Hi; subst e. rewrite Nat.add_0_r. split; [exact Hm|].
      simpl. rewrite Hm, String.eqb_refl. reflexivity.
    + destruct (IH (S k) i Hrest Hi) as [He Hl].
      replace (k + S i)%nat with (S k + i)%nat by lia.
      split; [exact He|]. cbn [Email_lookup].
      destruct (String.eqb (Email_ID m) (fmt.Sprintf_msg (Z.of_nat (S k + i)))) eqn:E;
        [|exact Hl].
      apply String.eqb_eq in E. rewrite Hm in E.
      apply Sprintf_msg_inj in E. lia.
Qed.

Lemma Email_lookup_some (ms : list Email) (id : string) (e : Email) :
  Email_lookup ms id = Some e -> In e ms /\ Email_ID e = id.
Proof.
  induction ms as [|m ms IH]; simpl; [discriminate|].
  destruct (String.eqb (Email_ID m) id) eqn:E.
  - intros H; inversion H; subst. apply String.eqb_eq in E. auto.
  - intros H. destruct (IH H). auto.
Qed.

Lemma Email_lookup_none (ms : list Email) (id : string) :
  (forall e, In e ms -> Email_ID e <> id) -> Email_lookup ms id = None.
Proof.
  induction ms as [|m ms IH]; intros H; simpl; [reflexivity|].
  destruct (String.eqb (Email_ID m) id) eqn:E.
  - apply String.eqb_eq in E. exfalso. apply (H m); [now left|exact E].
  - apply IH. intros e He. apply H. now right.
Qed.

(** C5.  In every state of a store (created by [New], then any appends and
    clears), [Email] called with the identifier of a record that is
    present returns that very record; a record it returns is present and
    carries the identifier asked for; for an identifier that no record
    carries it returns [nil] ([None]), and so it does for every identifier
    once the store has been cleared. *)
Theorem Email_returns_record_or_nil (p q : Z) (ops : list store_op) :
  let s := store_run (New p q) ops in
  (forall i e, nth_error (messages s) i = Some e ->
     Server_Email s (Email_ID e) = Some e)
  /\ (forall id e, Server_Email s id = Some e ->
        In e (messages s) /\ Email_ID e = id)
  /\ (forall id, (forall e, In e (messages s) -> Email_ID e <> id) ->
        Server_Email s id = None)
  /\ (forall id, Server_Email (Server_Clear s) id = None).
Proof.
  intros s. repeat split.
  - intros i e H. unfold Server_Email.
    assert (Hids := store_run_ids ops (New p q) eq_refl). fold s in Hids.
    destruct (Email_lookup_by_position _ 0 i e Hids H) as [He Hl].
    rewrite He. exact Hl.
  - now apply Email_lookup_some in H.
  - now apply Email_lookup_some in H.
  - apply Email_lookup_none.
Qed.

Lemma Email_returns_record_or_nil_witness :
  let s := store_run (New 1025 8025) example_ops in
  Server_Email s "msg-1"
  = Some (Spec.finalized 1 (draft "e@x.com" [] "Subject: V", 7))
  /\ Server_Email s "msg-2" = None.
Proof.
  intros s. split.
  - exact (proj1 (Email_returns_record_or_nil 1025 8025 example_ops) 1%nat
                 (Spec.finalized 1 (draft "e@x.com" [] "Subject: V", 7)) eq_refl).
  - apply (proj1 (proj2 (proj2 (Email_returns_record_or_nil 1025 8025 example_ops)))).
    intros e [<-|[<-|[]]]; discriminate.
Defined.

(** ** The session *)

(** C4.  When reading the body fails, [Data] returns the error (wrapped)
    to its caller and the store is what it was: no record is appended; the
    session is unchanged as well. *)
Theorem Data_read_failure (s : session) (srv : Server) (r : io.Reader)
        (now : time_Time) (e : error) :
  io.failure r = Some e ->
  session_Data s srv r now
  = (s, srv, Some (wrapError ("failed to read email data: " ++ error_Error e) e))
  /\ Server_Emails (snd (fst (session_Data s srv r now))) = Server_Emails srv.
Proof.
  intros H. unfold session_Data, io.ReadAll. rewrite H. split; reflexivity.
Qed.

Lemma Data_read_failure_witness :
  io.failure broken_reader = Some (errorString "unexpected EOF")
  /\ session_Data NewSession (store_run (New 1025 8025) example_ops) broken_reader 8
     = (NewSession, store_run (New 1025 8025) example_ops,
        Some (wrapError "failed to read email data: unexpected EOF"
                        (errorString "unexpected EOF"))).
Proof.
  split; [reflexivity|].
  exact (proj1 (Data_read_failure NewSession (store_run (New 1025 8025) example_ops)
                                  broken_reader 8 (errorString "unexpected EOF")
                                  eq_refl)).
Defined.

(** C8.  In whatever state the session and the store are, [Reset] leaves
    the session with an empty sender and no recipients, and the store with
    the records it had. *)
Theorem Reset_clears_envelope (s : session) (srv : Server) :
  let '(s', srv', err) := session_call RSET s srv in
  from s' = EmptyString
  /\ to s' = []
  /\ srv' = srv
  /\ Server_Emails srv' = Server_Emails srv
  /\ err = None.
Proof. simpl. repeat split. Qed.




(** ** The query interface *)

Lemma is_empty_false (s : string) : s <> EmptyString -> is_empty s = false.
Proof. destruct s; [congruence|reflexivity]. Qed.

Lemma Email_lookup_found (ms : list Email) (id : string) (e : Email) :
  In e ms -> Email_ID e = id ->
  exists e', Email_lookup ms id = Some e'.
Proof.
  induction ms as [|m ms IH]; intros Hin Hid; [destruct Hin|].
  simpl. destruct (String.eqb (Email_ID m) id) eqn:E; [now exists m|].
  destruct Hin as [->|Hin].
  - apply String.eqb_neq in E. contradiction.
  - now apply IH.
Qed.

(** C6, as amended.  For a request GET /api/v1/emails/{id}: an empty id is
    answered with status 400 and a plain-text message; an id that no
    record carries with status 404 and a plain-text message; and when a
    record carries the id, one with that id is found, and the answer is
    status 200 with the JSON text the encoder gives for it. *)
Theorem handleGetEmail_responses (marshal : Email -> option string)
        (s : Server) (id : string) :
  let response := Server_handleGetEmail marshal s ("/api/v1/emails/" ++ id) in
  (id = EmptyString ->
     response = Some {| http.StatusCode := 400;
                        http.ContentType := "text/plain; charset=utf-8";
                        http.Body := "Email ID is required" ++ String LF EmptyString |})
  /\ (id <> EmptyString ->
      (forall e, In e (messages s) -> Email_ID e <> id) ->
      response = Some {| http.StatusCode := 404;
                         http.ContentType := "text/plain; charset=utf-8";
                         http.Body := "Email not found" ++ String LF EmptyString |})
  /\ (id <> EmptyString ->
      (exists e, In e (messages s) /\ Email_ID e = id) ->
      exists e, Server_Email s id = Some e
        /\ In e (messages s) /\ Email_ID e = id
        /\ forall js, marshal e = Some js ->
             response = Some {| http.StatusCode := 200;
                                http.ContentType := "application/json";
                                http.Body := js ++ String LF EmptyString |}).
Proof.
  intros response. subst response. unfold Server_handleGetEmail.
  change (slice_from ("/api/v1/emails/" ++ id) (String.length "/api/v1/emails/"))
    with (Some id).
  split; [|split].
  - intros ->. reflexivity.
  - intros Hne Hnone. rewrite (is_empty_false _ Hne).
    unfold Server_Email. rewrite (Email_lookup_none _ _ Hnone). reflexivity.
  - intros Hne (e0 & Hin & Hid). rewrite (is_empty_false _ Hne).
    destruct (Email_lookup_found _ _ _ Hin Hid) as [e He].
    exists e. unfold Server_Email. rewrite He.
    destruct (Email_lookup_some _ _ _ He) as [Hin' Hid'].
    repeat split; try assumption.
    intros js Hjs. rewrite Hjs. reflexivity.
Qed.

Lemma handleGetEmail_responses_witness :
  "msg-0" <> EmptyString
  /\ (exists e, In e (messages (store_run (New 1025 8025) example_ops))
                /\ Email_ID e = "msg-0")
  /\ exists e,
       Server_Email (store_run (New 1025 8025) example_ops) "msg-0" = Some e
       /\ In e (messages (store_run (New 1025 8025) example_ops))
       /\ Email_ID e = "msg-0"
       /\ forall js, marshal_id e = Some js ->
            Server_handleGetEmail marshal_id (store_run (New 1025 8025) example_ops)
                                  "/api/v1/emails/msg-0"
            = Some {| http.StatusCode := 200;
                      http.ContentType := "application/json";
                      http.Body := js ++ String LF EmptyString |}.
Proof.
  assert (Hne : "msg-0" <> EmptyString) by discriminate.
  assert (Hex : exists e, In e (messages (store_run (New 1025 8025) example_ops))
                          /\ Email_ID e = "msg-0")
    by (eexists; split; [left; reflexivity|reflexivity]).
  split; [exact Hne|]. split; [exact Hex|].
  exact (proj2 (proj2 (handleGetEmail_responses
                         marshal_id (store_run (New 1025 8025) example_ops) "msg-0"))
               Hne Hex).
Defined.

(** C6, as claimed, fails: a request with an empty id is answered with
    status 400, not 404. *)
Lemma handleGetEmail_empty_id_not_404 :
  exists response,
    Server_handleGetEmail marshal_id (New 1025 8025) "/api/v1/emails/" = Some response
    /\ http.StatusCode response = 400
    /\ http.StatusCode response <> 404.
Proof.
  eexists. split; [reflexivity|]. split; [reflexivity|discriminate].
Qed.

(** ** Process configuration *)

Lemma isFlagPassed_fold (fs : flag.FlagSet) (name : string)
      (found : bool) (acc : option flag.Value) :
  found = match acc with Some _ => true | None => false end ->
  fold_left (fun found f => if String.eqb f name then true else found)
            (flag.Visit fs) found
  = match fold_left (fun acc f => if String.eqb (fst f) name then Some (snd f) else acc)
                    fs acc
    with Some _ => true | None => false end.
Proof.
  revert found acc; induction fs as [|[n v] fs IH]; intros found acc H; [exact H|].
  simpl. apply IH. simpl. destruct (String.eqb n name); [reflexivity|exact H].
Qed.

(** A flag has been passed exactly when [flag.Parse] left it a value. *)
Lemma isFlagPassed_lookup (fs : flag.FlagSet) (name : string) :
  isFlagPassed fs name
  = match flag.lookup fs name with Some _ => true | None => false end.
Proof. now apply isFlagPassed_fold. Qed.

Lemma Getenv_unset (env : os.Environ) (key : string) :
  (forall v, ~ In (key, v) env) -> os.Getenv env key = EmptyString.
Proof.
  induction env as [|[k v] env IH]; intros H; [reflexivity|].
  simpl. destruct (String.eqb k key) eqn:E.
  - apply String.eqb_eq in E; subst k. exfalso. apply (H v). now left.
  - apply IH. intros v' Hin. apply (H v'). now right.
Qed.

Lemma digits_value_digits (s : string) (acc : Z) :
  strconv.digits_value acc s
  = match Spec.digits s with
    | Some v => Some (acc * 10 ^ len s + v)
    | None => None
    end.
Proof.
  revert acc; induction s as [|c s IH]; intros acc.
  - simpl. f_equal. unfold len. simpl. lia.
  - cbn [strconv.digits_value Spec.digits].
    unfold strconv.isDigit, Spec.digit.
    destruct ((48 <=? byte_val c) && (byte_val c <=? 57)); [|reflexivity].
    rewrite IH. destruct (Spec.digits s) as [v|]; [|reflexivity].
    f_equal. unfold len. cbn [String.length].
    rewrite Nat2Z.inj_succ, Z.pow_succ_r by lia. ring.
Qed.

Lemma digits_nonneg (s : string) (v : Z) : Spec.digits s = Some v -> 0 <= v.
Proof.
  revert v; induction s as [|c s IH]; intros v H; simpl in H.
  - inversion H. lia.
  - unfold Spec.digit in H.
    destruct ((48 <=? byte_val c) && (byte_val c <=? 57)) eqn:E; [|discriminate].
    destruct (Spec.digits s) as [w|]; [|discriminate].
    inversion H; subst. specialize (IH w eq_refl).
    apply andb_true_iff in E as [E _]. apply Z.leb_le in E.
    assert (0 <= 10 ^ len s) by (apply Z.pow_nonneg; lia). nia.
Qed.

(** [strconv.Atoi] reads exactly the texts that parse as an integer, with
    their values. *)
Lemma Atoi_integer_text (s : string) : strconv.Atoi s = Spec.integer_text s.
Proof.
  unfold strconv.Atoi, strconv.ParseInt, Spec.integer_text, strconv.isSign.
  destruct s as [|c rest]; [reflexivity|].
  rewrite (orb_comm (Ascii.eqb c "+"%char)).
  set (body := if Ascii.eqb c "-"%char || Ascii.eqb c "+"%char
               then rest else String c rest).
  destruct (is_empty body); [reflexivity|].
  rewrite digits_value_digits.
  destruct (Spec.digits body) as [v|] eqn:Ev; [|reflexivity].
  pose proof (digits_nonneg _ _ Ev) as Hv.
  replace (0 * 10 ^ len body + v) with v by lia.
  destruct (Ascii.eqb c "-"%char).
  - destruct (v <=? 2 ^ 63) eqn:E1.
    + apply Z.leb_le in E1.
      replace (- 2 ^ 63 <=? - v) with true by (symmetry; apply Z.leb_le; lia).
      replace (- v <? 2 ^ 63) with true by (symmetry; apply Z.ltb_lt; lia).
      reflexivity.
    + apply Z.leb_gt in E1.
      replace (- 2 ^ 63 <=? - v) with false by (symmetry; apply Z.leb_gt; lia).
      reflexivity.
  - replace (- 2 ^ 63 <=? v) with true by (symmetry; apply Z.leb_le; lia).
    reflexivity.
Qed.

(** The library follows the rule of the configuration for every value of
    the variable. *)
Lemma getEnvInt_by_rule (env : os.Environ) (key : string) (default : Z) :
  getEnvInt env key default = Spec.port_by_rule None (os.Getenv env key) default.
Proof.
  unfold getEnvInt, Spec.port_by_rule. now rewrite Atoi_integer_text.
Qed.

(** A flag that was passed wins in [main], whatever the variable holds. *)
Lemma main_port_flag_wins (fs : flag.FlagSet) (env : os.Environ)
      (name key : string) (default v : Z) :
  flag.lookup fs name = Some (flag.IntValue v) ->
  main_port fs env name key (flag.Int fs name default)
  = Spec.port_by_rule (Some v) (os.Getenv env key) default.
Proof.
  intros H. unfold main_port, flag.Int. rewrite isFlagPassed_lookup, H.
  reflexivity.
Qed.

(** C10.  The rule: a flag that was passed wins; else a variable of the
    environment that is not empty and parses as an integer gives the
    port; else the compiled default, 1025 or 8025.  The library follows
    it for every value ([getEnvInt_by_rule]), and [main] follows it when
    the flag was passed and when the variable is unset, empty or an
    integer ([main_port_flag_wins], [main_port_by_rule]).  But [main]
    reads the variable with [fmt.Sscanf], which takes the digits at the
    front of the value and does not look at what follows: with the values
    "2525x" and "80.5", which are no integers, it uses the ports 2525 and
    80 where the rule, and the library on the same environment, give the
    defaults. *)
Theorem main_reads_leading_digits :
  Spec.integer_text "2525x" = None
  /\ Spec.integer_text "80.5" = None
  /\ Spec.port_by_rule None (os.Getenv env_not_integers "MAILCATCHER_SMTP_PORT") 1025
     = 1025
  /\ Spec.port_by_rule None (os.Getenv env_not_integers "MAILCATCHER_HTTP_PORT") 8025
     = 8025
  /\ main_ports [] env_not_integers = Some (2525, 80)
  /\ smtpPort (DefaultServer_new env_not_integers) = 1025
  /\ httpPort (DefaultServer_new env_not_integers) = 8025
  /\ main_ports [("smtp-port", flag.IntValue 2500)] env_not_integers
     = Some (2500, 80)
  /\ Spec.port_by_rule None (os.Getenv example_env "MAILCATCHER_SMTP_PORT") 1025
     = 2525
  /\ main_ports [] example_env = Some (2525, 7000)
  /\ smtpPort (DefaultServer_new example_env) = 2525
  /\ httpPort (DefaultServer_new example_env) = 7000.
Proof.
  repeat split; vm_compute; reflexivity.
Qed.

Example main_ports_defaults : main_ports [] [] = Some (1025, 8025).
Proof. reflexivity. Qed.

Example main_ports_invalid_env :
  main_ports [] [("MAILCATCHER_SMTP_PORT", "smtp")] = Some (1025, 8025).
Proof. reflexivity. Qed.

Example main_ports_flag_over_env :
  main_ports [("smtp-port", flag.IntValue 2500)]
             [("MAILCATCHER_SMTP_PORT", "2525")] = Some (2500, 8025).
Proof. reflexivity. Qed.

(** The two readers of the variable: [fmt.Sscanf] skips white space and
    reads the integer at the front of the value, whatever follows it;
    [strconv.Atoi] wants the whole value to be an integer. *)
Example readers_of_the_variable :
  fmt.Sscanf_d "2525x" = Some 2525
  /\ fmt.Sscanf_d " 2525" = Some 2525
  /\ strconv.Atoi "2525x" = None
  /\ strconv.Atoi " 2525" = None
  /\ strconv.Atoi "2525" = Some 2525
  /\ fmt.Sscanf_d "port" = None.
Proof. repeat split. Qed.

(** * Further properties *)

(** ** [parseSubject] on the lines of the body *)

Lemma parseSubject_loop_lines (fuel : nat) (s tok : string) :
  (String.length s < fuel)%nat ->
  parseSubject_loop fuel (bufio.mkScanner s tok false)
  = parseSubject_lines (Spec.lines s).
Proof.
  revert s tok; induction fuel as [|fuel IH]; intros s tok Hf; [lia|].
  destruct (Spec.lines s) as [|l ls] eqn:L.
  - destruct s as [|c s]; [reflexivity|]. now apply lines_nonempty in L.
  - cbn [parseSubject_lines].
    destruct (len l <? bufio.MaxScanTokenSize) eqn:Hshort.
    + apply Z.ltb_lt in Hshort.
      destruct (Scan_line s tok l ls L Hshort) as (after & E & La & Hlen).
      cbn [parseSubject_loop]. rewrite E. cbn [bufio.Text bufio.token].
      destruct (is_empty (bufio.dropCR l)); [reflexivity|].
      destruct (strings.HasPrefix (strings.ToLower (bufio.dropCR l)) "subject:");
        [reflexivity|].
      rewrite <- La. apply IH. lia.
    + apply Z.ltb_ge in Hshort.
      pose proof (Scan_too_long s tok l ls L Hshort) as H.
      cbn [parseSubject_loop].
      destruct (bufio.Scan (bufio.mkScanner s tok false)) as [more sc].
      simpl in H. subst more. reflexivity.
Qed.

Lemma parseSubject_by_lines (body : string) :
  parseSubject body = parseSubject_lines (Spec.lines body).
Proof.
  unfold parseSubject, bufio.NewScanner. apply parseSubject_loop_lines. lia.
Qed.

Lemma lines_app_LF (a b : string) :
  Spec.lines (a ++ String LF b)
  = (Spec.lines (a ++ String LF EmptyString) ++ Spec.lines b)%list.
Proof.
  induction a as [|c a IH]; [reflexivity|].
  cbn [append Spec.lines]. destruct (Ascii.eqb c LF).
  - rewrite IH. reflexivity.
  - rewrite IH.
    destruct (Spec.lines (a ++ String LF EmptyString)) as [|l ls] eqn:E;
      [|reflexivity].
    destruct a; simpl in E; [discriminate|].
    now apply lines_nonempty in E.
Qed.

Lemma parseSubject_lines_blank (pre : list string) (e : string) (post : list string) :
  is_empty (bufio.dropCR e) = true ->
  parseSubject_lines (pre ++ e :: post) = parseSubject_lines (pre ++ [e]).
Proof.
  intros He. induction pre as [|l pre IH]; cbn [app parseSubject_lines].
  - rewrite He. reflexivity.
  - rewrite IH. reflexivity.
Qed.

Lemma parseSubject_displayLabel_witness :
  Forall (fun l => len l < bufio.MaxScanTokenSize)
         (Spec.header_block (Spec.lines example_body))
  /\ parseSubject example_body = Spec.displayLabel example_body
  /\ parseSubject example_body = "Hello".
Proof.
  assert (H : Forall (fun l => len l < bufio.MaxScanTokenSize)
                     (Spec.header_block (Spec.lines example_body)))
    by (repeat constructor).
  split; [exact H|]. split; [|reflexivity].
  exact (parseSubject_displayLabel example_body H).
Defined.

(** X2.  A body whose first line has 64 KiB or more gives the empty
    subject, whatever its other lines are. *)
Theorem parseSubject_first_line_too_long (body : string) :
  bufio.MaxScanTokenSize <= len (hd EmptyString (Spec.lines body)) ->
  parseSubject body = EmptyString.
Proof.
  intros H. rewrite parseSubject_by_lines.
  destruct (Spec.lines body) as [|l ls]; [reflexivity|].
  cbn [hd] in H. cbn [parseSubject_lines].
  apply Z.ltb_ge in H. rewrite H. reflexivity.
Qed.

Lemma parseSubject_first_line_too_long_witness :
  bufio.MaxScanTokenSize <= len (hd EmptyString (Spec.lines body_long_subject))
  /\ parseSubject body_long_subject = EmptyString.
Proof.
  assert (H : bufio.MaxScanTokenSize
              <= len (hd EmptyString (Spec.lines body_long_subject)))
    by (apply Z.leb_le; vm_compute; reflexivity).
  split; [exact H|].
  exact (parseSubject_first_line_too_long body_long_subject H).
Defined.

(** X3.  What follows the first empty line of a body (an empty line is a
    line feed, or a carriage return and a line feed, after a line feed)
    has no part in the subject: a line "Subject: ..." in the text of the
    message is not looked at. *)
Theorem parseSubject_ignores_text_after_empty_line (h e rest : string) :
  e = EmptyString \/ e = String CR EmptyString ->
  parseSubject (h ++ String LF (e ++ String LF rest))
  = parseSubject (h ++ String LF (e ++ String LF EmptyString)).
Proof.
  intros He. rewrite !parseSubject_by_lines.
  rewrite (lines_app_LF h (e ++ String LF rest)).
  rewrite (lines_app_LF h (e ++ String LF EmptyString)).
  assert (L : forall r, Spec.lines (e ++ String LF r) = e :: Spec.lines r)
    by (intros r; destruct He as [->| ->]; reflexivity).
  rewrite !L. cbn [Spec.lines].
  apply parseSubject_lines_blank.
  destruct He as [->| ->]; reflexivity.
Qed.

Lemma parseSubject_ignores_text_after_empty_line_witness :
  (String CR EmptyString = EmptyString
   \/ String CR EmptyString = String CR EmptyString)
  /\ parseSubject ("To: b@x.com" ++ String CR EmptyString
                   ++ String LF (String CR EmptyString
                                 ++ String LF "Subject: in the text"))
     = EmptyString.
Proof.
  split; [right; reflexivity|].
  exact (eq_trans
           (parseSubject_ignores_text_after_empty_line
              ("To: b@x.com" ++ String CR EmptyString) (String CR EmptyString)
              "Subject: in the text" (or_intror eq_refl))
           eq_refl).
Defined.

Lemma parseSubject_lines_sound (ls : list string) :
  parseSubject_lines ls <> EmptyString ->
  exists pre l post value,
    ls = (pre ++ l :: post)%list
    /\ Forall (fun p => is_empty (bufio.dropCR p) = false
                        /\ Spec.field_value "subject" (bufio.dropCR p) = None) pre
    /\ len l < bufio.MaxScanTokenSize
    /\ Spec.field_value "subject" (bufio.dropCR l) = Some value
    /\ parseSubject_lines ls = strings.TrimSpace value.
Proof.
  induction ls as [|l ls IH]; intros H; [now elim H|].
  cbn [parseSubject_lines] in *.
  destruct (len l <? bufio.MaxScanTokenSize) eqn:Hshort; [|now elim H].
  apply Z.ltb_lt in Hshort.
  destruct (is_empty (bufio.dropCR l)) eqn:B; [now elim H|].
  pose proof (prefix_test_field_value "subject" (bufio.dropCR l) eq_refl) as P.
  change ("subject" ++ ":") with "subject:" in P.
  change (S (String.length "subject")) with 8%nat in P.
  destruct (strings.HasPrefix (strings.ToLower (bufio.dropCR l)) "subject:").
  - destruct (slice_from (bufio.dropCR l) 8) as [rest|]; [|now elim H].
    exists [], l, ls, rest. repeat split; auto.
  - destruct (IH H) as (pre & l' & post & value & -> & Hpre & Hl & Hv & Hr).
    exists (l :: pre), l', post, value. repeat split; auto.
Qed.

(** X4.  A subject that is not empty is never made up: it is the trimmed
    value of a line of the body shorter than 64 KiB whose name before the
    first colon is "subject" up to case, and every line before that one is
    neither empty nor such a line. *)
Theorem parseSubject_sound (body : string) :
  parseSubject body <> EmptyString ->
  exists pre l post value,
    Spec.lines body = (pre ++ l :: post)%list
    /\ Forall (fun p => is_empty (bufio.dropCR p) = false
                        /\ Spec.field_value "subject" (bufio.dropCR p) = None) pre
    /\ len l < bufio.MaxScanTokenSize
    /\ Spec.field_value "subject" (bufio.dropCR l) = Some value
    /\ parseSubject body = strings.TrimSpace value.
Proof.
  rewrite parseSubject_by_lines. apply parseSubject_lines_sound.
Qed.

Lemma parseSubject_sound_witness :
  parseSubject example_body <> EmptyString
  /\ exists pre l post value,
       Spec.lines example_body = (pre ++ l :: post)%list
       /\ Forall (fun p => is_empty (bufio.dropCR p) = false
                           /\ Spec.field_value "subject" (bufio.dropCR p) = None) pre
       /\ len l < bufio.MaxScanTokenSize
       /\ Spec.field_value "subject" (bufio.dropCR l) = Some value
       /\ parseSubject example_body = strings.TrimSpace value.
Proof.
  assert (H : parseSubject example_body <> EmptyString) by discriminate.
  split; [exact H|]. exact (parseSubject_sound example_body H).
Defined.

(** ** More on the store *)

Lemma NoDup_map_injective {A B : Type} (f : A -> B) (l : list A) :
  (forall x y, f x = f y -> x = y) -> NoDup l -> NoDup (map f l).
Proof.
  intros Hinj H. induction H as [|x l Hx Hl IH]; simpl; constructor; [|exact IH].
  intros Hin. apply in_map_iff in Hin as (y & Hy & Hyl).
  apply Hinj in Hy. subst y. contradiction.
Qed.

(** X5.  In every state of the store reached from [New] by appends and
    clears, no two records have the same identifier. *)
Theorem store_ids_unique (p q : Z) (ops : list store_op) :
  NoDup (map Email_ID (Server_Emails (store_run (New p q) ops))).
Proof.
  unfold Server_Emails. rewrite (store_run_ids ops (New p q) eq_refl).
  apply NoDup_map_injective; [|apply seq_NoDup].
  intros x y H. apply Sprintf_msg_inj in H. lia.
Qed.

(** X6.  Without a clear the store only grows at its end: after any
    appends the records held before are still there, in place, followed
    by one new record for each append. *)
Theorem store_append_only (s : Server) (ops : list store_op) :
  forallb is_add ops = true ->
  exists new,
    Server_Emails (store_run s ops) = (Server_Emails s ++ new)%list
    /\ List.length new = List.length ops.
Proof.
  unfold Server_Emails. revert s; induction ops as [|o ops IH]; intros s H.
  - exists []. now rewrite app_nil_r.
  - simpl in H. apply andb_true_iff in H as [Ho H].
    destruct o as [email now|]; [|discriminate].
    destruct (IH (Server_addMessage s email now) H) as (new & E & L).
    unfold store_run in *. simpl. rewrite E, addMessage_messages, <- app_assoc.
    eexists. split; [reflexivity|]. simpl. now rewrite L.
Qed.

Lemma store_append_only_witness :
  forallb is_add [op_add (draft "e@x.com" [] "Subject: W") 9] = true
  /\ exists new,
       Server_Emails (store_run (store_run (New 1025 8025) example_ops)
                                [op_add (draft "e@x.com" [] "Subject: W") 9])
       = (Server_Emails (store_run (New 1025 8025) example_ops) ++ new)%list
       /\ List.length new = 1%nat.
Proof.
  split; [reflexivity|].
  exact (store_append_only (store_run (New 1025 8025) example_ops)
                           [op_add (draft "e@x.com" [] "Subject: W") 9] eq_refl).
Defined.

(** X7.  The number of records in the store is the number of appends
    since the last clear (added to what the store held, if there was no
    clear). *)
Theorem store_size (s : Server) (ops : list store_op) :
  List.length (Server_Emails (store_run s ops))
  = fold_left count_step ops (List.length (Server_Emails s)).
Proof.
  unfold Server_Emails, store_run. revert s; induction ops as [|o ops IH]; intros s.
  - reflexivity.
  - simpl. rewrite IH. f_equal.
    destruct o as [email now|]; simpl; [|reflexivity].
    rewrite length_app. simpl. lia.
Qed.

Lemma Email_lookup_app (ms l : list Email) (id : string) :
  Email_lookup (ms ++ l) id
  = match Email_lookup ms id with
    | Some e => Some e
    | None => Email_lookup l id
    end.
Proof.
  induction ms as [|m ms IH]; simpl; [reflexivity|].
  destruct (String.eqb (Email_ID m) id); [reflexivity|exact IH].
Qed.

(** X8.  In a state of the store reached from [New], an append makes the
    new record the answer of [Email] for the identifier it was given, and
    leaves the answer for every other identifier as it was. *)
Theorem Email_after_addMessage (p q : Z) (ops : list store_op)
        (email : Email) (now : time_Time) :
  let s := store_run (New p q) ops in
  let n := List.length (messages s) in
  Server_Email (Server_addMessage s email now) (fmt.Sprintf_msg (Z.of_nat n))
  = Some (Spec.finalized n (email, now))
  /\ (forall id, id <> fmt.Sprintf_msg (Z.of_nat n) ->
        Server_Email (Server_addMessage s email now) id = Server_Email s id).
Proof.
  intros s n. unfold Server_Email. rewrite addMessage_messages.
  fold n. split.
  - rewrite Email_lookup_app.
    rewrite (Email_lookup_none (messages s)).
    + simpl. rewrite String.eqb_refl. reflexivity.
    + intros e He Hid.
      apply In_nth_error in He as [i Hi].
      assert (Hids := store_run_ids ops (New p q) eq_refl). fold s in Hids.
      destruct (Email_lookup_by_position _ 0 i e Hids Hi) as [He _].
      rewrite He in Hid. apply Sprintf_msg_inj in Hid.
      assert (Hlt : (i < List.length (messages s))%nat)
        by (apply nth_error_Some; congruence).
      fold n in Hlt. simpl in Hid. lia.
  - intros id Hid. rewrite Email_lookup_app.
    destruct (Email_lookup (messages s) id); [reflexivity|].
    cbn [Email_lookup Spec.finalized Email_ID].
    destruct (String.eqb (fmt.Sprintf_msg (Z.of_nat n)) id) eqn:E;
      [|reflexivity].
    apply String.eqb_eq in E. congruence.
Qed.

Lemma Email_after_addMessage_witness :
  "msg-0" <> fmt.Sprintf_msg 2
  /\ Server_Email
       (Server_addMessage (store_run (New 1025 8025) example_ops)
                          (draft "e@x.com" [] "Subject: W") 9) "msg-0"
     = Server_Email (store_run (New 1025 8025) example_ops) "msg-0".
Proof.
  assert (H : "msg-0" <> fmt.Sprintf_msg 2) by discriminate.
  split; [exact H|].
  exact (proj2 (Email_after_addMessage 1025 8025 example_ops
                  (draft "e@x.com" [] "Subject: W") 9) "msg-0" H).
Defined.

(** ** More on the session *)

Lemma session_call_session (c : command) (s : session) (srv srv' : Server) :
  fst (fst (session_call c s srv)) = fst (fst (session_call c s srv')).
Proof.
  destruct c as [u p|f|t|r now| |]; try reflexivity.
  simpl. unfold session_Data. destruct (io.ReadAll r) as [body [e|]]; reflexivity.
Qed.

Lemma session_calls_session (cs : list command) (s : session) (srv srv' : Server) :
  fst (fst (session_calls cs s srv)) = fst (fst (session_calls cs s srv')).
Proof.
  revert s srv srv'; induction cs as [|c cs IH]; intros s srv srv'; [reflexivity|].
  cbn [session_calls].
  pose proof (session_call_session c s srv srv') as Hc.
  destruct (session_call c s srv) as [[s1 srv1] e1].
  destruct (session_call c s srv') as [[s1' srv1'] e1'].
  simpl in Hc. subst s1'.
  specialize (IH s1 srv1 srv1').
  destruct (session_calls cs s1 srv1) as [[s2 srv2] e2].
  destruct (session_calls cs s1 srv1') as [[s2' srv2'] e2'].
  exact IH.
Qed.

Lemma session_calls_app (a b : list command) (s : session) (srv : Server) :
  session_calls (a ++ b) s srv
  = match session_calls a s srv with
    | (s1, srv1, e1) =>
        match session_calls b s1 srv1 with
        | (s2, srv2, e2) => (s2, srv2, (e1 ++ e2)%list)
        end
    end.
Proof.
  revert s srv; induction a as [|c a IH]; intros s srv.
  - simpl. destruct (session_calls b s srv) as [[s2 srv2] e2]. reflexivity.
  - cbn [app session_calls].
    destruct (session_call c s srv) as [[s1 srv1] e1].
    rewrite IH.
    destruct (session_calls a s1 srv1) as [[sa srva] ea].
    destruct (session_calls b sa srva) as [[sb srvb] eb].
    destruct e1; reflexivity.
Qed.

(** X9.  A reset forgets all that came before it: after any calls, a reset
    and more calls, the session is the one a new session reaches by the
    calls after the reset alone, on whatever server. *)
Theorem Reset_forgets (before after : list command) (s : session)
        (srv srv' : Server) :
  fst (fst (session_calls (before ++ RSET :: after) s srv))
  = fst (fst (session_calls after NewSession srv')).
Proof.
  rewrite session_calls_app.
  destruct (session_calls before s srv) as [[s1 srv1] e1].
  cbn [session_calls session_call session_Reset].
  pose proof (session_calls_session after NewSession srv1 srv') as H.
  unfold NewSession in *.
  destruct (session_calls after {| from := EmptyString; to := [] |} srv1)
    as [[s2 srv2] e2].
  exact H.
Qed.

(** X10.  Authentication accepts every user name and password and, like
    logout, changes nothing: taking these calls out of a sequence leaves
    the session, the store and the errors returned as they are. *)
Theorem AuthPlain_and_Logout_change_nothing (cs : list command)
        (s : session) (srv : Server) :
  session_calls (filter (fun c => negb (is_noop c)) cs) s srv
  = session_calls cs s srv.
Proof.
  revert s srv; induction cs as [|c cs IH]; intros s srv; [reflexivity|].
  destruct c as [u p|f|t|r now| |]; cbn [filter is_noop negb];
    try (cbn [session_calls]; destruct (session_call _ s srv) as [[s1 srv1] e1];
         rewrite IH; reflexivity).
  - rewrite IH. cbn [session_calls session_call session_AuthPlain].
    destruct (session_calls cs s srv) as [[s2 srv2] e2]. reflexivity.
  - rewrite IH. cbn [session_calls session_call session_Logout].
    destruct (session_calls cs s srv) as [[s2 srv2] e2]. reflexivity.
Qed.

(** ** Several connections *)

Lemma serve_app (a b : list (nat * command)) (ss : sessions) (srv : Server) :
  serve (a ++ b) ss srv
  = match serve a ss srv with
    | (ss1, srv1, e1) =>
        match serve b ss1 srv1 with
        | (ss2, srv2, e2) => (ss2, srv2, (e1 ++ e2)%list)
        end
    end.
Proof.
  revert ss srv; induction a as [|[i c] a IH]; intros ss srv.
  - simpl. destruct (serve b ss srv) as [[s2 srv2] e2]. reflexivity.
  - cbn [app serve].
    destruct (session_call c (ss i) srv) as [[s1 srv1] e1].
    rewrite IH.
    destruct (serve a (set_session ss i s1) srv1) as [[sa srva] ea].
    destruct (serve b sa srva) as [[sb srvb] eb].
    destruct e1; reflexivity.
Qed.

(** The store after interleaved calls. *)
Lemma serve_effect (events : list (nat * command)) (ss : sessions)
        (srv : Server) :
  exists new,
    Server_Emails (snd (fst (serve events ss srv)))
    = (Server_Emails srv ++ new)%list
    /\ map Email_Body new = delivered_bodies (map snd events)
    /\ map Email_Subject new = map parseSubject (delivered_bodies (map snd events))
    /\ map Email_ID new
       = map (fun i => fmt.Sprintf_msg (Z.of_nat i))
             (seq (List.length (Server_Emails srv))
                  (List.length (delivered_bodies (map snd events))))
    /\ snd (serve events ss srv) = read_errors (map snd events).
Proof.
  unfold Server_Emails.
  revert ss srv; induction events as [|[i c] events IH]; intros ss srv.
  - exists []. simpl. rewrite app_nil_r. repeat split.
  - cbn [serve map snd].
    destruct (session_call c (ss i) srv) as [[s1 srv1] e1] eqn:Ec.
    destruct (IH (set_session ss i s1) srv1) as (new & Hm & Hb & Hs & Hi & He).
    destruct (serve events (set_session ss i s1) srv1) as [[ss2 srv2] e2].
    cbn [fst snd] in *.
    destruct c as [u p|f|t|r now| |];
      try (simpl in Ec; inversion Ec; subst; exists new;
           cbn [delivered_bodies read_errors]; repeat split; assumption).
    simpl in Ec. unfold session_Data, io.ReadAll in Ec.
    cbn [delivered_bodies read_errors].
    destruct (io.failure r) as [e|].
    + inversion Ec; subst. exists new. repeat split; assumption.
    + inversion Ec; subst. clear Ec.
      rewrite addMessage_messages in Hm, Hi.
      rewrite length_app in Hi. simpl in Hi.
      replace (List.length (messages srv) + 1)%nat
        with (S (List.length (messages srv))) in Hi by lia.
      eexists (_ :: new). rewrite Hm, <- app_assoc.
      split; [reflexivity|].
      cbn [map Spec.finalized Email_Body Email_Subject Email_ID fst snd
           List.length seq].
      rewrite Hb, Hs, Hi. repeat split.
Qed.

(** The session of one connection after interleaved calls. *)
Lemma serve_session (events : list (nat * command)) (ss : sessions)
        (srv srv' : Server) (j : nat) :
  fst (fst (serve events ss srv)) j
  = fst (fst (session_calls (commands_of j events) (ss j) srv')).
Proof.
  revert ss srv srv'; induction events as [|[i c] events IH]; intros ss srv srv';
    [reflexivity|].
  cbn [serve commands_of].
  destruct (session_call c (ss i) srv) as [[s1 srv1] e1] eqn:Ec.
  destruct (Nat.eqb i j) eqn:Eij.
  - apply Nat.eqb_eq in Eij. subst j.
    cbn [session_calls].
    pose proof (session_call_session c (ss i) srv srv') as Hc.
    rewrite Ec in Hc.
    destruct (session_call c (ss i) srv') as [[s1' srv1'] e1'].
    simpl in Hc. subst s1'.
    specialize (IH (set_session ss i s1) srv1 srv1').
    unfold set_session at 2 in IH. rewrite Nat.eqb_refl in IH.
    destruct (serve events (set_session ss i s1) srv1) as [[ss2 srv2] e2].
    destruct (session_calls (commands_of i events) s1 srv1') as [[s3 srv3] e3].
    exact IH.
  - specialize (IH (set_session ss i s1) srv1 srv').
    unfold set_session at 2 in IH.
    rewrite Nat.eqb_sym, Eij in IH.
    destruct (serve events (set_session ss i s1) srv1) as [[ss2 srv2] e2].
    exact IH.
Qed.

(** X11.  However the calls of several connections are interleaved on a
    new server, the store ends with one record for each body that was
    read to the end, in the order the transmissions completed, with the
    identifiers "msg-0", "msg-1", ... without gap or repetition; the
    subjects are those [parseSubject] finds in the bodies, and the errors
    returned are those of the transmissions that failed. *)
Theorem serve_store_effect (events : list (nat * command)) (ss : sessions)
        (p q : Z) :
  let emails := Server_Emails (snd (fst (serve events ss (New p q)))) in
  let bodies := delivered_bodies (map snd events) in
  List.length emails = List.length bodies
  /\ map Email_ID emails
     = map (fun i => "msg-" ++ strconv.Itoa (Z.of_nat i)) (seq 0 (List.length bodies))
  /\ map Email_Body emails = bodies
  /\ map Email_Subject emails = map parseSubject bodies
  /\ snd (serve events ss (New p q)) = read_errors (map snd events).
Proof.
  intros emails bodies. subst emails bodies.
  destruct (serve_effect events ss (New p q)) as (new & Hm & Hb & Hs & Hi & He).
  rewrite Hm. cbn [Server_Emails messages New app List.length] in *.
  rewrite <- Hb at 1. rewrite length_map.
  repeat split; assumption.
Qed.

(** X12.  A session belongs to its connection: two runs on whatever
    servers in which a connection makes the same calls leave its session
    the same, whatever the other connections do in between; it is the
    session its own calls alone lead to. *)
Theorem connection_isolation (events events' : list (nat * command))
        (ss : sessions) (srv srv' : Server) (j : nat) :
  commands_of j events = commands_of j events' ->
  fst (fst (serve events ss srv)) j = fst (fst (serve events' ss srv')) j
  /\ fst (fst (serve events ss srv)) j
     = fst (fst (session_calls (commands_of j events) (ss j) srv)).
Proof.
  intros H. split; [|apply serve_session].
  rewrite (serve_session events ss srv srv j).
  rewrite (serve_session events' ss srv' srv j).
  now rewrite H.
Qed.

Lemma connection_isolation_witness :
  commands_of 1 example_events
  = commands_of 1 [(1%nat, MAIL "a@x.com"); (1%nat, RCPT "b@x.com");
                   (1%nat, DATA broken_reader 6);
                   (1%nat, DATA (reader_of "Subject: T") 7)]
  /\ fst (fst (serve example_events fresh_sessions (New 1025 8025))) 1%nat
     = {| from := "a@x.com"; to := ["b@x.com"] |}.
Proof.
  split; [reflexivity|].
  exact (proj1 (connection_isolation
                  example_events
                  [(1%nat, MAIL "a@x.com"); (1%nat, RCPT "b@x.com");
                   (1%nat, DATA broken_reader 6);
                   (1%nat, DATA (reader_of "Subject: T") 7)]
                  fresh_sessions (New 1025 8025) (New 1025 8025) 1%nat eq_refl)).
Defined.

(** X13.  The record of a transmission carries the sender and the
    recipients of its own connection only: when a body is read to the end
    on connection [i], the record stored for it (at the place that counts
    the records of the store and the transmissions completed before) has
    the envelope that the calls of connection [i] alone had built, the
    body as read, the subject found in it, and the time of the append;
    and later calls do not change it. *)
Theorem record_of_connection (before after : list (nat * command))
        (i : nat) (r : io.Reader) (now : time_Time)
        (ss : sessions) (srv : Server) :
  io.failure r = None ->
  let own := fst (fst (session_calls (commands_of i before) (ss i) srv)) in
  let k := (List.length (Server_Emails srv)
            + List.length (delivered_bodies (map snd before)))%nat in
  nth_error
    (Server_Emails (snd (fst (serve (before ++ (i, DATA r now) :: after) ss srv))))
    k
  = Some {| Email_ID := fmt.Sprintf_msg (Z.of_nat k);
            Email_From := from own;
            Email_Subject := parseSubject (io.delivered r);
            Email_Body := io.delivered r;
            Email_Time := now;
            Email_To := to own |}.
Proof.
  intros Hr own k. subst own k. unfold Server_Emails.
  rewrite serve_app.
  destruct (serve_effect before ss srv) as (new1 & Hm1 & Hb1 & _).
  pose proof (serve_session before ss srv srv i) as Hiso.
  unfold Server_Emails in Hm1.
  destruct (serve before ss srv) as [[ss1 srv1] e1]. cbn [fst snd] in Hm1, Hiso.
  rewrite <- Hb1, length_map, <- length_app, <- Hm1, <- Hiso.
  cbn [serve session_call]. unfold session_Data, io.ReadAll. rewrite Hr.
  set (m := {| Email_ID := EmptyString; Email_From := from (ss1 i);
               Email_Subject := parseSubject (io.delivered r);
               Email_Body := io.delivered r; Email_Time := time_zero;
               Email_To := to (ss1 i) |}).
  destruct (serve_effect after (set_session ss1 i (ss1 i))
                               (Server_addMessage srv1 m now))
    as (new3 & Hm3 & _).
  unfold Server_Emails in Hm3.
  destruct (serve after (set_session ss1 i (ss1 i)) (Server_addMessage srv1 m now))
    as [[ss3 srv3] e3].
  cbn [fst snd] in *. rewrite Hm3, addMessage_messages.
  rewrite nth_error_app1 by (rewrite length_app; simpl; lia).
  rewrite nth_error_app2 by lia.
  rewrite Nat.sub_diag. reflexivity.
Qed.

Lemma record_of_connection_witness :
  io.failure (reader_of "Subject: T") = None
  /\ nth_error (Server_Emails (snd (fst (serve example_events fresh_sessions
                                               (New 1025 8025))))) 1
     = Some {| Email_ID := "msg-1";
               Email_From := "a@x.com";
               Email_Subject := "T";
               Email_Body := "Subject: T";
               Email_Time := 7;
               Email_To := ["b@x.com"] |}.
Proof.
  split; [reflexivity|].
  exact (record_of_connection
           [(1%nat, MAIL "a@x.com"); (2%nat, MAIL "c@x.com"); (1%nat, RCPT "b@x.com");
            (2%nat, DATA (reader_of example_body) 5); (1%nat, DATA broken_reader 6);
            (2%nat, RSET)]
           [] 1%nat (reader_of "Subject: T") 7 fresh_sessions (New 1025 8025)
           eq_refl).
Defined.

(** ** The three endpoints together *)

Lemma session_calls_rcpts (rs : list string) (s : session) (srv : Server) :
  session_calls (map RCPT rs) s srv
  = ({| from := from s; to := (to s ++ rs)%list |}, srv, []).
Proof.
  revert s; induction rs as [|r rs IH]; intros s.
  - simpl. rewrite app_nil_r. destruct s; reflexivity.
  - cbn [map session_calls session_call session_Rcpt]. rewrite IH.
    cbn [from to]. now rewrite <- app_assoc.
Qed.

(** X14.  One transaction, seen through the query interface.  On a new
    server, after a sender, any recipients and a body read to the end:
    the list endpoint reports total 1 and count 1 with one item, which has
    the identifier "msg-0", that sender, those recipients in order, the
    body as sent and the subject found in it; the get-by-id endpoint
    answers "msg-0" with status 200 and the JSON text of that same record;
    and after the clear endpoint (status 204) the list endpoint reports 0
    and the get-by-id endpoint answers 404. *)
Theorem one_transaction_end_to_end (marshal : Email -> option string)
        (p q : Z) (a : string) (rs : list string) (body : string) (t : time_Time) :
  let srv := snd (fst (session_calls
                         (MAIL a :: map RCPT rs ++ [DATA (reader_of body) t])
                         NewSession (New p q))) in
  let m := {| Email_ID := "msg-0"; Email_From := a;
              Email_Subject := parseSubject body; Email_Body := body;
              Email_Time := t; Email_To := rs |} in
  handleGetEmails_object srv
  = [("total", any_int 1); ("count", any_int 1); ("items", any_emails [m])]
  /\ (forall js, marshal m = Some js ->
        Server_handleGetEmail marshal srv "/api/v1/emails/msg-0"
        = Some {| http.StatusCode := 200;
                  http.ContentType := "application/json";
                  http.Body := js ++ String LF EmptyString |})
  /\ http.StatusCode (snd (Server_handleDeleteEmails srv)) = 204
  /\ handleGetEmails_object (fst (Server_handleDeleteEmails srv))
     = [("total", any_int 0); ("count", any_int 0); ("items", any_emails [])]
  /\ Server_handleGetEmail marshal (fst (Server_handleDeleteEmails srv))
                           "/api/v1/emails/msg-0"
     = Some {| http.StatusCode := 404;
               http.ContentType := "text/plain; charset=utf-8";
               http.Body := "Email not found" ++ String LF EmptyString |}.
Proof.
  intros srv m.
  assert (Hsrv : srv = Server_with_messages (New p q) [m]).
  { subst srv m. cbn [session_calls session_call session_Mail].
    rewrite session_calls_app, session_calls_rcpts.
    reflexivity. }
  rewrite Hsrv. repeat split.
  intros js Hjs. unfold Server_handleGetEmail. simpl. rewrite Hjs. reflexivity.
Qed.

Lemma one_transaction_end_to_end_witness :
  marshal_id {| Email_ID := "msg-0"; Email_From := "a@x.com";
                Email_Subject := "T"; Email_Body := "Subject: T" ++ CRLF ++ CRLF ++ "Hi";
                Email_Time := 5; Email_To := ["b@x.com"] |} = Some "msg-0"
  /\ Server_handleGetEmail
       marshal_id
       (snd (fst (session_calls
                    (MAIL "a@x.com" :: map RCPT ["b@x.com"]
                     ++ [DATA (reader_of ("Subject: T" ++ CRLF ++ CRLF ++ "Hi")) 5])
                    NewSession (New 1025 8025))))
       "/api/v1/emails/msg-0"
     = Some {| http.StatusCode := 200;
               http.ContentType := "application/json";
               http.Body := "msg-0" ++ String LF EmptyString |}.
Proof.
  split; [reflexivity|].
  exact (proj1 (proj2 (one_transaction_end_to_end
                         marshal_id 1025 8025 "a@x.com" ["b@x.com"]
                         ("Subject: T" ++ CRLF ++ CRLF ++ "Hi") 5))
               "msg-0" eq_refl).
Defined.

(** X15.  What the list endpoint shows can be fetched: in every state of
    the store reached from [New], each item of the list is answered by the
    get-by-id endpoint, asked with the identifier of the item, with status
    200 and the JSON text of that very item. *)
Theorem listed_item_can_be_fetched (marshal : Email -> option string)
        (p q : Z) (ops : list store_op) (e : Email) (js : string) :
  let s := store_run (New p q) ops in
  object_get (handleGetEmails_object s) "items" = Some (any_emails (Server_Emails s))
  /\ (In e (Server_Emails s) ->
      marshal e = Some js ->
      Server_handleGetEmail marshal s ("/api/v1/emails/" ++ Email_ID e)
      = Some {| http.StatusCode := 200;
                http.ContentType := "application/json";
                http.Body := js ++ String LF EmptyString |}).
Proof.
  intros s. split; [reflexivity|].
  unfold Server_Emails. intros Hin Hjs.
  apply In_nth_error in Hin as [i Hi].
  assert (Hids := store_run_ids ops (New p q) eq_refl). fold s in Hids.
  destruct (Email_lookup_by_position _ 0 i e Hids Hi) as [He Hl].
  unfold Server_handleGetEmail.
  change (slice_from ("/api/v1/emails/" ++ Email_ID e)
                     (String.length "/api/v1/emails/"))
    with (Some (Email_ID e)).
  assert (Hne : is_empty (Email_ID e) = false) by (rewrite He; reflexivity).
  rewrite <- He in Hl.
  unfold Server_Email. rewrite Hne, Hl, Hjs. reflexivity.
Qed.

Lemma listed_item_can_be_fetched_witness :
  In (Spec.finalized 1 (draft "e@x.com" [] "Subject: V", 7))
     (Server_Emails (store_run (New 1025 8025) example_ops))
  /\ marshal_id (Spec.finalized 1 (draft "e@x.com" [] "Subject: V", 7)) = Some "msg-1"
  /\ Server_handleGetEmail marshal_id (store_run (New 1025 8025) example_ops)
                           "/api/v1/emails/msg-1"
     = Some {| http.StatusCode := 200;
               http.ContentType := "application/json";
               http.Body := "msg-1" ++ String LF EmptyString |}.
Proof.
  assert (Hin : In (Spec.finalized 1 (draft "e@x.com" [] "Subject: V", 7))
                   (Server_Emails (store_run (New 1025 8025) example_ops)))
    by (right; left; reflexivity).
  split; [exact Hin|]. split; [reflexivity|].
  exact (proj2 (listed_item_can_be_fetched
                  marshal_id 1025 8025 example_ops
                  (Spec.finalized 1 (draft "e@x.com" [] "Subject: V", 7)) "msg-1")
               Hin eq_refl).
Defined.

(** A preflight request stops at the middleware: the handler is not run,
    so the store is as it was; any other request gets the response and
    the store of the handler.  Both carry the three headers. *)
Lemma corsMiddleware_cases (next : Server -> Server * http.Response)
      (method : string) (s : Server) :
  fst (snd (corsMiddleware next method s)) = cors_headers
  /\ (method = "OPTIONS" ->
      fst (corsMiddleware next method s) = s
      /\ http.StatusCode (snd (snd (corsMiddleware next method s))) = 204)
  /\ (method <> "OPTIONS" ->
      fst (corsMiddleware next method s) = fst (next s)
      /\ snd (snd (corsMiddleware next method s)) = snd (next s)).
Proof.
  unfold corsMiddleware. destruct (String.eqb method "OPTIONS") eqn:E.
  - apply String.eqb_eq in E. repeat split; congruence.
  - apply String.eqb_neq in E. destruct (next s) as [s' r].
    repeat split; congruence.
Qed.

(** ** More on the configuration *)

Lemma isFlagPassed_fold_In (names : list string) (name : string) (found : bool) :
  fold_left (fun found f => if String.eqb f name then true else found) names found
  = true
  <-> found = true \/ In name names.
Proof.
  revert found; induction names as [|n names IH]; intros found; simpl.
  - split; [auto|intros [H|[]]; exact H].
  - rewrite IH. destruct (String.eqb n name) eqn:E.
    + apply String.eqb_eq in E. subst n. split; auto.
    + apply String.eqb_neq in E. split.
      * intros [H|H]; auto.
      * intros [H|[H|H]]; auto; contradiction.
Qed.

(** X16.  [isFlagPassed] answers true exactly for the names of the flags
    that were set on the command line. *)
Theorem isFlagPassed_iff (fs : flag.FlagSet) (name : string) :
  isFlagPassed fs name = true <-> In name (flag.Visit fs).
Proof.
  unfold isFlagPassed. rewrite isFlagPassed_fold_In.
  split; [intros [H|H]; [discriminate|exact H]|auto].
Qed.

Lemma digits_value_acc (d : Decimal.uint) (acc : positive) :
  strconv.digits_value (Z.pos acc) (NilEmpty.string_of_uint d)
  = Some (Z.pos (Pos.of_uint_acc d acc)).
Proof.
  revert acc; induction d; intros acc; cbn [NilEmpty.string_of_uint Pos.of_uint_acc];
    [reflexivity|..];
    cbn [strconv.digits_value];
    match goal with
    | |- (if strconv.isDigit ?c then strconv.digits_value ?v _ else _) = Some (Z.pos (Pos.of_uint_acc _ ?a)) =>
        change (strconv.isDigit c) with true; cbv iota;
        replace v with (Z.pos a) by (vm_compute (byte_val c); lia)
    end; apply IHd.
Qed.

Lemma digits_value_of_uint (d : Decimal.uint) :
  strconv.digits_value 0 (NilEmpty.string_of_uint d)
  = Some (Z.of_N (Pos.of_uint d)).
Proof.
  induction d; cbn [NilEmpty.string_of_uint Pos.of_uint]; [reflexivity|..];
    cbn [strconv.digits_value];
    match goal with
    | |- (if strconv.isDigit ?c then _ else _) = _ =>
        change (strconv.isDigit c) with true; cbv iota
    end;
    [exact IHd|..];
    match goal with
    | |- strconv.digits_value ?v _ = Some (Z.of_N (N.pos (Pos.of_uint_acc _ ?a))) =>
        replace v with (Z.pos a) by (vm_compute; reflexivity)
    end; apply digits_value_acc.
Qed.

Lemma string_of_uint_head (d : Decimal.uint) :
  d <> Decimal.Nil ->
  exists c rest,
    NilEmpty.string_of_uint d = String c rest
    /\ strconv.isSign c = false.
Proof.
  destruct d; intros H; [congruence|..];
    cbn [NilEmpty.string_of_uint]; eexists; eexists; split; reflexivity.
Qed.

Lemma ParseInt_string_of_uint (d : Decimal.uint) :
  d <> Decimal.Nil ->
  strconv.ParseInt (NilEmpty.string_of_uint d)
  = if Z.of_N (Pos.of_uint d) <? 2 ^ 63 then Some (Z.of_N (Pos.of_uint d)) else None.
Proof.
  intros H. pose proof (digits_value_of_uint d) as Hv.
  destruct (string_of_uint_head d H) as (c & rest & E & Hs).
  rewrite E in *. unfold strconv.ParseInt. rewrite Hs.
  cbn [is_empty]. rewrite Hv.
  assert (Hm : Ascii.eqb c "-"%char = false).
  { unfold strconv.isSign in Hs. apply orb_false_iff in Hs. tauto. }
  rewrite Hm. reflexivity.
Qed.

(** [strconv.Atoi] reads back what [strconv.Itoa] writes, for every [int]. *)
Lemma Atoi_Itoa (n : Z) :
  - 2 ^ 63 <= n < 2 ^ 63 -> strconv.Atoi (strconv.Itoa n) = Some n.
Proof.
  intros Hn. unfold strconv.Atoi, strconv.Itoa.
  destruct n as [|p|p]; cbn [Z.to_int NilEmpty.string_of_int].
  - reflexivity.
  - rewrite ParseInt_string_of_uint by apply DecimalPos.Unsigned.to_uint_nonnil.
    rewrite DecimalPos.Unsigned.of_to. cbn [Z.of_N].
    destruct (Z.pos p <? 2 ^ 63) eqn:E; [reflexivity|].
    apply Z.ltb_ge in E. lia.
  - pose proof (digits_value_of_uint (Pos.to_uint p)) as Hv.
    rewrite DecimalPos.Unsigned.of_to in Hv. cbn [Z.of_N] in Hv.
    pose proof (DecimalPos.Unsigned.to_uint_nonnil p) as Hnil.
    unfold strconv.ParseInt.
    change (strconv.isSign "-"%char) with true. cbv iota.
    destruct (NilEmpty.string_of_uint (Pos.to_uint p)) as [|c rest] eqn:E.
    { destruct (Pos.to_uint p); try discriminate; congruence. }
    cbn [is_empty]. rewrite Hv.
    change (Ascii.eqb "-"%char "-"%char) with true. cbv iota.
    destruct (Z.pos p <=? 2 ^ 63) eqn:E2; [reflexivity|].
    apply Z.leb_gt in E2. lia.
Qed.

Lemma scanNumber_digits (d : string) (acc v : Z) :
  strconv.digits_value acc d = Some v -> fmt.scanNumber d = d.
Proof.
  revert acc; induction d as [|c d IH]; intros acc H; [reflexivity|].
  simpl in *. destruct (strconv.isDigit c); [|discriminate].
  now rewrite (IH _ H).
Qed.

Lemma sign_or_digit_no_space (c : ascii) :
  strconv.isSign c || strconv.isDigit c = true ->
  Ascii.eqb c LF = false
  /\ strings.asciiSpace c = false
  /\ (forall b1, strings.space2 c b1 = false)
  /\ (forall b1 b2, strings.space3 c b1 b2 = false).
Proof.
  destruct c as [[] [] [] [] [] [] [] []]; intros H; try discriminate H;
    repeat split; intros; reflexivity.
Qed.

Lemma SkipSpace_sign_or_digit (c : ascii) (rest : string) :
  strconv.isSign c || strconv.isDigit c = true ->
  fmt.SkipSpace (String c rest) = Some (String c rest).
Proof.
  intros H. destruct (sign_or_digit_no_space c H) as (H0 & H1 & H2 & H3).
  cbn [fmt.SkipSpace]. rewrite H0, H1.
  destruct rest as [|b1 r1]; [reflexivity|]. rewrite H2.
  destruct r1 as [|b2 r2]; [reflexivity|]. rewrite H3. reflexivity.
Qed.

(** Whatever [strconv.ParseInt] reads as an integer, [fmt.Sscanf] with
    the verb [%d] reads as the same integer. *)
Lemma Sscanf_extends_ParseInt (s : string) (n : Z) :
  strconv.ParseInt s = Some n -> fmt.Sscanf_d s = Some n.
Proof.
  intros H. pose proof H as H'. unfold strconv.ParseInt in H.
  destruct s as [|c rest]; [discriminate|].
  unfold fmt.Sscanf_d.
  destruct (strconv.isSign c) eqn:Hs.
  - destruct rest as [|d rest]; [discriminate|]. cbn [is_empty] in H.
    destruct (strconv.digits_value 0 (String d rest)) as [un|] eqn:Hv;
      [|discriminate].
    rewrite SkipSpace_sign_or_digit by (rewrite Hs; reflexivity).
    rewrite Hs. rewrite (scanNumber_digits _ _ _ Hv). cbn [is_empty].
    exact H'.
  - cbn [is_empty] in H.
    destruct (strconv.digits_value 0 (String c rest)) as [un|] eqn:Hv;
      [|discriminate].
    assert (Hd : strconv.isDigit c = true).
    { simpl in Hv. destruct (strconv.isDigit c); [reflexivity|discriminate]. }
    rewrite SkipSpace_sign_or_digit by (rewrite Hd; apply orb_true_r).
    rewrite Hs. rewrite (scanNumber_digits _ _ _ Hv). cbn [is_empty].
    exact H'.
Qed.

(** Where [main] follows the rule of the configuration: when the
    variable is unset or empty, or parses as an integer. *)
Lemma main_port_by_rule (fs : flag.FlagSet) (env : os.Environ)
      (name key : string) (default : Z) :
  flag.lookup fs name = None ->
  (forall v, ~ In (key, v) env)
  \/ os.Getenv env key = EmptyString
  \/ Spec.integer_text (os.Getenv env key) <> None ->
  main_port fs env name key (flag.Int fs name default)
  = Spec.port_by_rule None (os.Getenv env key) default.
Proof.
  intros Hf H. unfold main_port, flag.Int, Spec.port_by_rule.
  rewrite isFlagPassed_lookup, Hf. cbn [negb]. cbv iota.
  assert (H' : os.Getenv env key = EmptyString
               \/ Spec.integer_text (os.Getenv env key) <> None).
  { destruct H as [H|[H|H]]; [left; now apply Getenv_unset|now left|now right]. }
  destruct (is_empty (os.Getenv env key)) eqn:E; [reflexivity|].
  cbn [negb]. cbv iota.
  destruct H' as [H'|H']; [rewrite H' in E; discriminate|].
  destruct (Spec.integer_text (os.Getenv env key)) as [n|] eqn:En; [|congruence].
  rewrite <- Atoi_integer_text in En.
  now rewrite (Sscanf_extends_ParseInt _ _ En).
Qed.

(** X17.  A port written in decimal in the variable of the environment is
    the port read from it: by [getEnvInt] for the library, and by [main]
    when the flag was not passed. *)
Theorem decimal_port_is_read (fs : flag.FlagSet) (env : os.Environ)
        (name key : string) (default n : Z) :
  - 2 ^ 63 <= n < 2 ^ 63 ->
  os.Getenv env key = strconv.Itoa n ->
  flag.lookup fs name = None ->
  getEnvInt env key default = n
  /\ main_port fs env name key default = n.
Proof.
  intros Hn Hv Hf. pose proof (Atoi_Itoa n Hn) as Ha.
  assert (Hne : is_empty (strconv.Itoa n) = false)
    by (destruct (strconv.Itoa n); [discriminate Ha|reflexivity]).
  unfold getEnvInt, main_port. rewrite isFlagPassed_lookup, Hf, Hv, Hne, Ha.
  rewrite (Sscanf_extends_ParseInt _ _ Ha). split; reflexivity.
Qed.

Lemma decimal_port_is_read_witness :
  - 2 ^ 63 <= 2525 < 2 ^ 63
  /\ os.Getenv example_env "MAILCATCHER_SMTP_PORT" = strconv.Itoa 2525
  /\ flag.lookup example_flags "smtp-port" = None
  /\ getEnvInt example_env "MAILCATCHER_SMTP_PORT" 1025 = 2525
  /\ main_port example_flags example_env "smtp-port" "MAILCATCHER_SMTP_PORT" 1025
     = 2525.
Proof.
  assert (Hn : - 2 ^ 63 <= 2525 < 2 ^ 63) by lia.
  split; [exact Hn|]. split; [reflexivity|]. split; [reflexivity|].
  exact (decimal_port_is_read example_flags example_env
           "smtp-port" "MAILCATCHER_SMTP_PORT" 1025 2525 Hn eq_refl eq_refl).
Defined.

(** X18.  The command and the library choose the same ports: when neither
    port flag was passed and each of the two variables is unset or empty,
    or holds what [strconv.Atoi] reads as an integer, or holds nothing
    [fmt.Sscanf] reads an integer from, [main] creates its server with the
    ports [DefaultServer] would use. *)
Theorem main_and_DefaultServer_agree (fs : flag.FlagSet) (env : os.Environ) :
  flag.Bool fs "version" false = false ->
  flag.lookup fs "smtp-port" = None ->
  flag.lookup fs "http-port" = None ->
  (os.Getenv env "MAILCATCHER_SMTP_PORT" = EmptyString
   \/ strconv.Atoi (os.Getenv env "MAILCATCHER_SMTP_PORT") <> None
   \/ fmt.Sscanf_d (os.Getenv env "MAILCATCHER_SMTP_PORT") = None) ->
  (os.Getenv env "MAILCATCHER_HTTP_PORT" = EmptyString
   \/ strconv.Atoi (os.Getenv env "MAILCATCHER_HTTP_PORT") <> None
   \/ fmt.Sscanf_d (os.Getenv env "MAILCATCHER_HTTP_PORT") = None) ->
  main_ports fs env
  = Some (smtpPort (DefaultServer_new env), httpPort (DefaultServer_new env)).
Proof.
  intros Hv Hs Hh Hsmtp Hhttp.
  assert (P : forall name key default,
             flag.lookup fs name = None ->
             (os.Getenv env key = EmptyString
              \/ strconv.Atoi (os.Getenv env key) <> None
              \/ fmt.Sscanf_d (os.Getenv env key) = None) ->
             main_port fs env name key (flag.Int fs name default)
             = getEnvInt env key default).
  { intros name key default Hf Hk.
    unfold main_port, getEnvInt, flag.Int. rewrite isFlagPassed_lookup, Hf.
    cbn [negb]. cbv iota.
    destruct (is_empty (os.Getenv env key)) eqn:E; [reflexivity|].
    cbn [negb]. cbv iota.
    destruct Hk as [Hk|[Hk|Hk]].
    - rewrite Hk in E. discriminate.
    - destruct (strconv.Atoi (os.Getenv env key)) as [n|] eqn:Ea; [|congruence].
      now rewrite (Sscanf_extends_ParseInt _ _ Ea).
    - rewrite Hk.
      destruct (strconv.Atoi (os.Getenv env key)) as [n|] eqn:Ea; [|reflexivity].
      rewrite (Sscanf_extends_ParseInt _ _ Ea) in Hk. discriminate. }
  unfold main_ports. rewrite Hv.
  rewrite (P _ _ 1025 Hs Hsmtp), (P _ _ 8025 Hh Hhttp). reflexivity.
Qed.

Lemma main_and_DefaultServer_agree_witness :
  flag.Bool [] "version" false = false
  /\ main_ports [] example_env
     = Some (smtpPort (DefaultServer_new example_env),
             httpPort (DefaultServer_new example_env)).
Proof.
  split; [reflexivity|].
  assert (H1 : os.Getenv example_env "MAILCATCHER_SMTP_PORT" = EmptyString
               \/ strconv.Atoi (os.Getenv example_env "MAILCATCHER_SMTP_PORT") <> None
               \/ fmt.Sscanf_d (os.Getenv example_env "MAILCATCHER_SMTP_PORT") = None)
    by (right; left; discriminate).
  assert (H2 : os.Getenv example_env "MAILCATCHER_HTTP_PORT" = EmptyString
               \/ strconv.Atoi (os.Getenv example_env "MAILCATCHER_HTTP_PORT") <> None
               \/ fmt.Sscanf_d (os.Getenv example_env "MAILCATCHER_HTTP_PORT") = None)
    by (right; left; discriminate).
  exact (main_and_DefaultServer_agree [] example_env eq_refl eq_refl eq_refl H1 H2).
Defined.

(** ** The default server *)

Lemma store_run_ports (ops : list store_op) (s : Server) :
  smtpPort (store_run s ops) = smtpPort s
  /\ httpPort (store_run s ops) = httpPort s.
Proof.
  revert s; induction ops as [|o ops IH]; intros s; [split; reflexivity|].
  unfold store_run in *. simpl. destruct (IH (store_step s o)) as [-> ->].
  destruct o; split; reflexivity.
Qed.

(** X19.  While the default server runs it is kept: as long as
    [StopDefault] is not called, calls of [DefaultServer] (whatever the
    environment then holds, whatever [Start] would return) change
    nothing; the server keeps its ports, and its store is the one the
    appends and clears made through the pointer lead to. *)
Theorem running_default_server_is_kept (actions : list global_action) (s : Server) :
  forallb (fun a => negb (is_stop a)) actions = true ->
  global_run (Some s) actions = Some (store_run s (store_ops_of actions))
  /\ smtpPort (store_run s (store_ops_of actions)) = smtpPort s
  /\ httpPort (store_run s (store_ops_of actions)) = httpPort s.
Proof.
  intros H. split; [|apply store_run_ports].
  revert s H; induction actions as [|a actions IH]; intros s H; [reflexivity|].
  simpl in H. apply andb_true_iff in H as [Ha H].
  destruct a as [env Start|Stop|o]; [| discriminate |].
  - exact (IH s H).
  - exact (IH (store_step s o) H).
Qed.

Lemma running_default_server_is_kept_witness :
  forallb (fun a => negb (is_stop a)) example_actions = true
  /\ global_run (Some (New 1025 8025)) example_actions
     = Some (store_run (New 1025 8025)
                       [op_add (draft "a@x.com" ["b@x.com"] "Subject: T") 5;
                        op_add (draft "c@x.com" [] "Subject: U") 6]).
Proof.
  split; [reflexivity|].
  exact (proj1 (running_default_server_is_kept example_actions (New 1025 8025)
                                               eq_refl)).
Defined.

(** X20.  [StopDefault] always forgets the server, also when [Stop]
    returns an error (which it passes on), and a second [StopDefault]
    returns no error without stopping anything.  The next [DefaultServer]
    then creates a server with no messages and the ports the environment
    gives at that moment; when [Start] fails it returns the error and
    keeps no server, so that the call after it tries again. *)
Theorem StopDefault_then_DefaultServer (g : option Server)
        (Stop Stop' : Server -> option error) (env : os.Environ)
        (Start : Server -> option error) :
  let g1 := fst (StopDefault g Stop) in
  g1 = None
  /\ (forall s, g = Some s -> snd (StopDefault g Stop) = Stop s)
  /\ StopDefault g1 Stop' = (None, None)
  /\ (Start (DefaultServer_new env) = None ->
      DefaultServer g1 env Start
      = (Some (DefaultServer_new env), (Some (DefaultServer_new env), None))
      /\ Server_Emails (DefaultServer_new env) = [])
  /\ (forall e, Start (DefaultServer_new env) = Some e ->
        fst (DefaultServer g1 env Start) = None
        /\ snd (snd (DefaultServer g1 env Start))
           = Some (wrapError ("failed to start mail catcher: " ++ error_Error e) e)).
Proof.
  intros g1. assert (Hg : g1 = None) by (subst g1; destruct g; reflexivity).
  rewrite Hg. split; [reflexivity|]. split.
  { intros s ->. reflexivity. }
  split; [reflexivity|].
  unfold DefaultServer. fold (DefaultServer_new env). split.
  - intros ->. split; reflexivity.
  - intros e ->. split; reflexivity.
Qed.

Lemma StopDefault_then_DefaultServer_witness :
  start_ok (DefaultServer_new example_env) = None
  /\ DefaultServer (fst (StopDefault (Some (store_run (New 1025 8025) example_ops))
                                     start_fails))
                   example_env start_ok
     = (Some (New 2525 7000), (Some (New 2525 7000), None)).
Proof.
  split; [reflexivity|].
  exact (proj1 (proj1 (proj2 (proj2 (proj2
           (StopDefault_then_DefaultServer
              (Some (store_run (New 1025 8025) example_ops))
              start_fails start_fails example_env start_ok)))) eq_refl)).
Defined.
